(** * Citation extraction from GROBID TEI documents

    A shallow embedding of [src/parse_citations.py] (the extractor and its
    JSON output) and of the reader in [task/example_starter.py], with the
    properties of the extractor stated and proved over it.

    The text of a document is modelled over the code points U+0000 ..
    U+00FF, one [ascii] per code point; the character classes of
    [str.strip], [int] and [re] are the ones of CPython restricted to that
    range.  The JSON file is modelled over all code points, and over the
    bytes that UTF-8 gives them. *)

From Stdlib Require Import ZArith Ascii String List Bool Lia.
From Stdlib Require Import DecimalString DecimalFacts DecimalPos.
From stdpp Require Import base option list strings gmap.

Local Open Scope string_scope.
Local Open Scope Z_scope.
Local Open Scope list_scope.

(** ** Python text primitives *)

Module Py.

Definition code (c : ascii) : N := N_of_ascii c.

Definition between (lo hi : N) (c : ascii) : bool :=
  ((lo <=? code c) && (code c <=? hi))%N.

(** [str.isspace] on one character: what [str.strip()] removes. *)
Definition isspace (c : ascii) : bool :=
  between 9 13 c || between 28 32 c || (code c =? 133)%N || (code c =? 160)%N.

(** The white space [int()] skips around a number: C [isspace] for the
    ASCII range, and the non-ASCII spaces (mapped to a blank before the
    number is read). *)
Definition int_space (c : ascii) : bool :=
  between 9 13 c || (code c =? 32)%N || (code c =? 133)%N || (code c =? 160)%N.

(** [\d] of [re] and the digits of [int()]. *)
Definition isdigit (c : ascii) : bool := between 48 57 c.

Definition digit_value (c : ascii) : Z := Z.of_N (code c) - 48.

(** [str.isalnum] on one character. *)
Definition isalnum (c : ascii) : bool :=
  isdigit c || between 65 90 c || between 97 122 c
  || (code c =? 170)%N || (code c =? 178)%N || (code c =? 179)%N
  || (code c =? 181)%N || (code c =? 185)%N || (code c =? 186)%N
  || between 188 190 c || between 192 214 c || between 216 246 c
  || between 248 255 c.

(** [\w] of [re] for [str] patterns. *)
Definition isword (c : ascii) : bool := isalnum c || (code c =? 95)%N.

(** Truth value of a string: [if s:]. *)
Definition truthy (s : string) : bool :=
  match s with EmptyString => false | String _ _ => true end.

Section Strip.
Variable space : ascii -> bool.

Fixpoint lstrip_with (s : string) : string :=
  match s with
  | EmptyString => EmptyString
  | String c s' => if space c then lstrip_with s' else s
  end.

Fixpoint rstrip_with (s : string) : string :=
  match s with
  | EmptyString => EmptyString
  | String c s' =>
      let r := rstrip_with s' in
      if space c && negb (truthy r) then EmptyString else String c r
  end.

Definition strip_with (s : string) : string := rstrip_with (lstrip_with s).
End Strip.

(** [s.strip()] *)
Definition strip : string -> string := strip_with isspace.

(** [s[:n]] *)
Fixpoint slice_to (n : nat) (s : string) : string :=
  match n, s with
  | S n', String c s' => String c (slice_to n' s')
  | _, _ => EmptyString
  end.

(** [''.join(parts)] *)
Fixpoint concat (parts : list string) : string :=
  match parts with
  | [] => EmptyString
  | p :: ps => p +:+ concat ps
  end.

(** [sep.join(parts)] *)
Fixpoint join (sep : string) (parts : list string) : string :=
  match parts with
  | [] => EmptyString
  | [p] => p
  | p :: ps => p +:+ sep +:+ join sep ps
  end.

(** The digits of a decimal literal as [int()] reads them: single
    underscores are allowed between digits only.  [bar] says that an
    underscore (or the end) is not allowed at this point. *)
Fixpoint int_digits (bar : bool) (acc : Z) (s : string) : option Z :=
  match s with
  | EmptyString => if bar then None else Some acc
  | String c s' =>
      if isdigit c then int_digits false (10 * acc + digit_value c) s'
      else if (code c =? 95)%N then
        if bar then None else int_digits true acc s'
      else None
  end.

(** [int(s)]: [None] stands for [ValueError]. *)
Definition int (s : string) : option Z :=
  match strip_with int_space s with
  | String c s' =>
      if Ascii.eqb c "-" then Z.opp <$> int_digits true 0 s'
      else if Ascii.eqb c "+" then int_digits true 0 s'
      else int_digits true 0 (String c s')
  | EmptyString => None
  end.

(** [\b]: between a word character and a non-word character (the ends of
    the string count as non-word). *)
Definition word_at (c : option ascii) : bool :=
  match c with Some c => isword c | None => false end.

Definition boundary (prev next : option ascii) : bool :=
  xorb (word_at prev) (word_at next).

Definition first_char (s : string) : option ascii :=
  match s with EmptyString => None | String c _ => Some c end.

(** A match of [\b(19|20)\d{2}\b] that starts at the head of [s], where
    [prev] is the character before it. *)
Definition match_year_at (prev : option ascii) (s : string) : option string :=
  match s with
  | String c1 (String c2 (String c3 (String c4 rest))) =>
      if boundary prev (Some c1)
         && ((Ascii.eqb c1 "1" && Ascii.eqb c2 "9")
             || (Ascii.eqb c1 "2" && Ascii.eqb c2 "0"))
         && isdigit c3 && isdigit c4
         && boundary (Some c4) (first_char rest)
      then Some (String c1 (String c2 (String c3 (String c4 EmptyString))))
      else None
  | _ => None
  end.

(** [re.search(r'\b(19|20)\d{2}\b', s)]: the leftmost match, as
    [m.group()]. *)
Fixpoint search_year_from (prev : option ascii) (s : string) : option string :=
  match match_year_at prev s with
  | Some m => Some m
  | None =>
      match s with
      | EmptyString => None
      | String c s' => search_year_from (Some c) s'
      end
  end.

Definition search_year (s : string) : option string := search_year_from None s.

End Py.

(** ** ElementTree documents *)

Module ET.

#[local] Unset Elimination Schemes.

(** An [xml.etree.ElementTree.Element]: tag (with the namespace expanded,
    as the parser stores it), attribute dictionary, the text before the
    first child, the text after the end tag, and the children. *)
Inductive Element : Type :=
  mkElement (tag : string) (attrib : gmap string string)
            (text tail : option string) (children : list Element).
#[local] Set Elimination Schemes.

Definition tag (e : Element) : string :=
  match e with mkElement t _ _ _ _ => t end.
Definition attrib (e : Element) : gmap string string :=
  match e with mkElement _ a _ _ _ => a end.
Definition text (e : Element) : option string :=
  match e with mkElement _ _ t _ _ => t end.
Definition tail (e : Element) : option string :=
  match e with mkElement _ _ _ t _ => t end.
Definition children (e : Element) : list Element :=
  match e with mkElement _ _ _ _ cs => cs end.

(** [elem.get(key)] *)
Definition get (e : Element) (key : string) : option string := attrib e !! key.

(** [elem.iter()]: the element and all its descendants, in document
    order. *)
Fixpoint iter (e : Element) : list Element :=
  match e with
  | mkElement _ _ _ _ cs =>
      e :: (fix over (cs : list Element) : list Element :=
              match cs with
              | [] => []
              | c :: cs' => iter c ++ over cs'
              end) cs
  end.

(** The elements [.//] ranges over: [elem.iter()] without [elem]. *)
Definition descendants (e : Element) : list Element :=
  match iter e with [] => [] | _ :: ds => ds end.

(** The text chunks an optional text contributes: [if t: yield t]. *)
Definition chunk (t : option string) : list string :=
  match t with
  | Some s => if Py.truthy s then [s] else []
  | None => []
  end.

(** [elem.itertext()] *)
Fixpoint itertext (e : Element) : list string :=
  match e with
  | mkElement _ _ t _ cs =>
      chunk t ++ (fix over (cs : list Element) : list string :=
                    match cs with
                    | [] => []
                    | c :: cs' => itertext c ++ chunk (tail c) ++ over cs'
                    end) cs
  end.

Definition has_tag (t : string) (e : Element) : bool := String.eqb (tag e) t.

(** The predicate [[@key="value"]]. *)
Definition has_attr (key value : string) (e : Element) : bool :=
  match get e key with
  | Some v => String.eqb v value
  | None => false
  end.

(** [elem.findall('.//t')] *)
Definition findall_desc (t : string) (e : Element) : list Element :=
  List.filter (has_tag t) (descendants e).

(** [elem.find('.//t')] *)
Definition find_desc (t : string) (e : Element) : option Element :=
  head (findall_desc t e).

(** [elem.find('.//t[@key="value"]')] *)
Definition find_desc_attr (t key value : string) (e : Element) : option Element :=
  head (List.filter (has_attr key value) (findall_desc t e)).

(** [elem.findall('t')] *)
Definition findall_child (t : string) (e : Element) : list Element :=
  List.filter (has_tag t) (children e).

(** [elem.find('t')] *)
Definition find_child (t : string) (e : Element) : option Element :=
  head (findall_child t e).

End ET.

(** ** The extractor: [src/parse_citations.py] *)

Module Citations.
Import ET.

(** [ns = {'tei': 'http://www.tei-c.org/ns/1.0'}]: the tag a path step
    [tei:name] stands for. *)
Definition tei (name : string) : string :=
  "{http://www.tei-c.org/ns/1.0}" +:+ name.

(** The dictionary built for one [biblStruct]; its four keys are fixed. *)
Record Citation : Type := mkCitation {
  title : option string;
  authors : list string;
  proceedings : option string;
  year : option Z
}.

Definition set_title (v : option string) (c : Citation) : Citation :=
  mkCitation v (authors c) (proceedings c) (year c).
Definition set_authors (v : list string) (c : Citation) : Citation :=
  mkCitation (title c) v (proceedings c) (year c).
Definition set_proceedings (v : option string) (c : Citation) : Citation :=
  mkCitation (title c) (authors c) v (year c).
Definition set_year (v : option Z) (c : Citation) : Citation :=
  mkCitation (title c) (authors c) (proceedings c) v.

(** Truth value of an optional string ([None] and [''] are false) and of
    a list. *)
Definition truthy_opt (v : option string) : bool :=
  match v with Some s => Py.truthy s | None => false end.
Definition truthy_list {A} (l : list A) : bool :=
  match l with [] => false | _ :: _ => true end.

Definition extract_text (element : option Element) : option string :=
  match element with
  | Some e =>
      match text e with
      | Some t => if Py.truthy t then Some (Py.strip t) else None
      | None => None
      end
  | None => None
  end.

Definition extract_all_text (element : option Element) : string :=
  match element with
  | None => ""
  | Some e => Py.strip (Py.concat (itertext e))
  end.

(** [a if a is not None else b], for the two-step element look-ups. *)
Definition or_else {A} (a b : option A) : option A :=
  match a with Some _ => a | None => b end.

(** Lines 79-83: the forenames of one [persName]. *)
Definition add_forename (forenames : list string) (forename : Element) : list string :=
  match extract_text (Some forename) with
  | Some fn_text => if Py.truthy fn_text then forenames ++ [fn_text] else forenames
  | None => forenames
  end.

Definition collect_forenames (pers_name : Element) : list string :=
  fold_left add_forename (findall_child (tei "forename") pers_name) [].

(** Lines 76-93: the body of the loop over the authors, on
    [citation['authors']]. *)
Definition add_author (authors : list string) (author : Element) : list string :=
  match find_desc (tei "persName") author with
  | Some pers_name =>
      let forenames := collect_forenames pers_name in
      let surname := extract_text (find_child (tei "surname") pers_name) in
      match surname with
      | Some s =>
          if truthy_list forenames && Py.truthy s
          then authors ++ [Py.join " " forenames +:+ " " +:+ s]
          else if Py.truthy s then authors ++ [s]
          else authors
      | None => authors
      end
  | None => authors
  end.

(** Lines 64-93: title and authors from the analytic section. *)
Definition analytic_block (biblStruct : Element) (citation : Citation) : Citation :=
  match find_desc (tei "analytic") biblStruct with
  | Some analytic =>
      let title_elem :=
        or_else (find_desc_attr (tei "title") "type" "main" analytic)
                (find_desc_attr (tei "title") "level" "a" analytic) in
      let citation :=
        match title_elem with
        | Some _ => set_title (Some (extract_all_text title_elem)) citation
        | None => citation
        end in
      set_authors
        (fold_left add_author (findall_desc (tei "author") analytic)
                   (authors citation))
        citation
  | None => citation
  end.

(** Lines 95-104: title from the monogr section when there is none yet. *)
Definition monogr_title_block (biblStruct : Element) (citation : Citation) : Citation :=
  if negb (truthy_opt (title citation)) then
    match find_desc (tei "monogr") biblStruct with
    | Some monogr =>
        let title_elem :=
          or_else (find_desc_attr (tei "title") "type" "main" monogr)
                  (find_desc_attr (tei "title") "level" "m" monogr) in
        match title_elem with
        | Some _ => set_title (Some (extract_all_text title_elem)) citation
        | None => citation
        end
    | None => citation
    end
  else citation.

(** Lines 106-129: proceedings, journal or conference name. *)
Definition proceedings_block (biblStruct : Element) (citation : Citation) : Citation :=
  match find_desc (tei "monogr") biblStruct with
  | Some monogr =>
      let citation :=
        match find_child (tei "meeting") monogr with
        | Some meeting_elem =>
            match extract_text (Some meeting_elem) with
            | Some meeting_text =>
                if Py.truthy meeting_text
                then set_proceedings (Some meeting_text) citation
                else citation
            | None => citation
            end
        | None => citation
        end in
      if negb (truthy_opt (proceedings citation)) then
        match find_desc_attr (tei "title") "level" "j" monogr with
        | Some journal_title =>
            set_proceedings (Some (extract_all_text (Some journal_title))) citation
        | None =>
            match find_desc_attr (tei "title") "level" "m" monogr with
            | Some proc_title =>
                let proc_text := extract_all_text (Some proc_title) in
                if Py.truthy proc_text
                   && negb (bool_decide (Some proc_text = title citation))
                then set_proceedings (Some proc_text) citation
                else citation
            | None => citation
            end
        end
      else citation
  | None => citation
  end.

(** Lines 139-160: the year of a date element. *)
Definition year_from_date (date_elem : Element) (citation : Citation) : Citation :=
  let citation :=
    match get date_elem "when" with
    | Some year_attr =>
        if Py.truthy year_attr then
          match Py.int (Py.slice_to 4 year_attr) with
          | Some y => set_year (Some y) citation
          | None => citation
          end
        else citation
    | None => citation
    end in
  match year citation with
  | None =>
      match extract_text (Some date_elem) with
      | Some date_text =>
          if Py.truthy date_text then
            match Py.search_year date_text with
            | Some year_match =>
                match Py.int year_match with
                | Some y => set_year (Some y) citation
                | None => citation
                end
            | None => citation
            end
          else citation
      | None => citation
      end
  | Some _ => citation
  end.

(** Lines 131-160: the year, from the imprint. *)
Definition year_block (biblStruct : Element) (citation : Citation) : Citation :=
  match find_desc (tei "imprint") biblStruct with
  | Some imprint =>
      let date_elem :=
        or_else (find_desc_attr (tei "date") "type" "published" imprint)
                (find_desc (tei "date") imprint) in
      match date_elem with
      | Some d => year_from_date d citation
      | None => citation
      end
  | None => citation
  end.

Definition empty_citation : Citation := mkCitation None [] None None.

(** Lines 57-160: the dictionary after the body of the loop has run on
    one [biblStruct]. *)
Definition citation_of (biblStruct : Element) : Citation :=
  year_block biblStruct
    (proceedings_block biblStruct
       (monogr_title_block biblStruct
          (analytic_block biblStruct empty_citation))).

(** Line 163: [citation['title'] or citation['authors']]. *)
Definition worth_keeping (citation : Citation) : bool :=
  truthy_opt (title citation) || truthy_list (authors citation).

(** The exceptions the two [except] clauses tell apart. *)
Inductive exn : Type := ParseError | OtherException.

Section Loop.
(** The body of the loop, lines 57-160, as a computation that returns
    the dictionary or raises. *)
Variable body : Element -> exn + Citation.

(** Lines 56-164 inside the [try]: the loop stops at the first
    exception, which leaves the [try] block; [citations] keeps what was
    appended before. *)
Fixpoint for_each (biblStructs : list Element) (citations : list Citation)
  : list Citation * option exn :=
  match biblStructs with
  | [] => (citations, None)
  | b :: rest =>
      match body b with
      | inl e => (citations, Some e)
      | inr citation =>
          for_each rest
            (if worth_keeping citation then citations ++ [citation]
             else citations)
      end
  end.

(** Lines 44-171.  [file] is what [ET.parse] gives: the root element,
    or the exception it raised.  Both [except] clauses only print. *)
Definition parse_citations_with (file : exn + Element) : list Citation :=
  match file with
  | inl _ => []
  | inr root => fst (for_each (findall_desc (tei "biblStruct") root) [])
  end.
End Loop.

Definition parse_citations_from_xml : exn + Element -> list Citation :=
  parse_citations_with (fun b => inr (citation_of b)).

Definition parse_all_xml_files (files : list (exn + Element)) : list Citation :=
  fold_left (fun all_citations file => all_citations ++ parse_citations_from_xml file)
            files [].

End Citations.

(** ** The JSON file and its reader

    [main] writes the list of dictionaries with
    [json.dump(all_citations, f, indent=2, ensure_ascii=False)] to a file
    opened with [open(args.output, 'w', encoding='utf-8')], and
    [load_citations] of [task/example_starter.py] reads it back with
    [json.load(f)] from [open(json_file, 'r', encoding='utf-8')].

    A Python [str] is here the list of its code points (U+0000 to
    U+10FFFF, lone surrogates included) and the content of a file the
    list of its bytes.  The encoder below is [json.encoder] with the
    options of [main]; the decoder is [json.decoder] on the values such a
    file can hold ([None], integers, strings, lists and dictionaries with
    string keys); the text layer of the file is the UTF-8 codec with
    [errors='strict'] and the translation of line ends of [newline=None].
    Where the decoder model gives [None], Python raises or builds a value
    outside this fragment (a float, a boolean, a string with a surrogate
    written as an escape).  The limit of CPython on the number of digits
    of an integer that is written or read is part of the model; its
    limits on the depth of nesting and on memory are not. *)

Module Json.
Local Open Scope N_scope.

(** [ord(c)] *)
Definition ord (c : ascii) : N := Py.code c.

(** The code points of a text of the extractor. *)
Fixpoint code_points (s : string) : list N :=
  match s with
  | EmptyString => []
  | String c s' => ord c :: code_points s'
  end.

#[local] Unset Elimination Schemes.
Inductive value : Type :=
| PyNone
| PyInt (z : Z)
| PyStr (s : list N)
| PyList (items : list value)
| PyDict (items : list (list N * value)).
#[local] Set Elimination Schemes.

Definition dquote : N := 34.
Definition backslash : N := ord "\".
Definition line_feed : N := 10.
Definition carriage_return : N := 13.

(** *** [json.encoder] *)

(** One lower-case hexadecimal digit. *)
Definition hex_digit (n : N) : N :=
  if n <? 10 then ord "0" + n else ord "a" + (n - 10).

(** [ESCAPE_DCT]: the replacement of one character inside a string.
    With [ensure_ascii=False] only the quote, the backslash and the
    control characters U+0000 to U+001F are replaced. *)
Definition escape_char (c : N) : list N :=
  if c =? dquote then [backslash; dquote]
  else if c =? backslash then [backslash; backslash]
  else if c =? 10 then [backslash; ord "n"]
  else if c =? 13 then [backslash; ord "r"]
  else if c =? 9 then [backslash; ord "t"]
  else if c =? 8 then [backslash; ord "b"]
  else if c =? 12 then [backslash; ord "f"]
  else if c <? 32 then
    [backslash; ord "u"; ord "0"; ord "0"; hex_digit (c / 16); hex_digit (c mod 16)]
  else [c].

Fixpoint escape (s : list N) : list N :=
  match s with
  | [] => []
  | c :: s' => escape_char c ++ escape s'
  end.

(** [encode_basestring] *)
Definition encode_basestring (s : list N) : list N :=
  dquote :: escape s ++ [dquote].

(** [int.__repr__], for an integer within the limit below. *)
Definition repr_int (z : Z) : list N :=
  code_points (NilEmpty.string_of_int (Z.to_int z)).

(** [sys.get_int_max_str_digits()]: the conversions between [int] and
    [str] raise [ValueError] beyond this number of digits. *)
Definition max_str_digits : nat := 4300.

(** The number of decimal digits of an integer. *)
Definition digits (z : Z) : nat := length (repr_int (Z.abs z)).

(** ['\n' + _indent * level] with [indent=2]. *)
Definition newline_indent (level : nat) : list N :=
  line_feed :: replicate (2 * level) (ord " ").

Section Items.
(** The encoder of the values inside a container, and the indent level
    inside it. *)
Variable enc : value -> list N.
Variable level : nat.

(** The loop of [_iterencode_list]: before the first item comes the
    new line, before the others the separator [,] and the new line. *)
Fixpoint list_items (first : bool) (lst : list value) : list N :=
  match lst with
  | [] => []
  | v :: rest =>
      (if first then newline_indent level else ord "," :: newline_indent level)
      ++ enc v ++ list_items false rest
  end.

(** The loop of [_iterencode_dict], with the key separator [: ]. *)
Fixpoint dict_items (first : bool) (items : list (list N * value)) : list N :=
  match items with
  | [] => []
  | (k, v) :: rest =>
      (if first then newline_indent level else ord "," :: newline_indent level)
      ++ encode_basestring k ++ [ord ":"; ord " "] ++ enc v
      ++ dict_items false rest
  end.
End Items.

(** [_iterencode] with its chunks joined, for a value whose integers are
    within the limit; [level] is [_current_indent_level]. *)
Fixpoint encode (level : nat) (v : value) : list N :=
  match v with
  | PyNone => code_points "null"
  | PyInt z => repr_int z
  | PyStr s => encode_basestring s
  | PyList [] => code_points "[]"
  | PyList lst =>
      ord "[" :: list_items (encode (S level)) (S level) true lst
      ++ newline_indent level ++ [ord "]"]
  | PyDict [] => code_points "{}"
  | PyDict items =>
      ord "{" :: dict_items (encode (S level)) (S level) true items
      ++ newline_indent level ++ [ord "}"]
  end.

(** Every integer of the value is within the limit: [int.__repr__]
    writes it. *)
Fixpoint ints_ok (v : value) : bool :=
  match v with
  | PyInt z => (digits z <=? max_str_digits)%nat
  | PyList items => forallb ints_ok items
  | PyDict items => forallb (fun kv => ints_ok (snd kv)) items
  | _ => true
  end.

(** [json.dumps(v, indent=2, ensure_ascii=False)]: the text that
    [json.dump] passes, chunk after chunk, to [f.write]; none when
    [int.__repr__] raises. *)
Definition dumps (v : value) : option (list N) :=
  if ints_ok v then Some (encode 0 v) else None.

(** *** [json.decoder] *)

(** [WHITESPACE = [ \t\n\r]*] *)
Definition is_ws (c : N) : bool :=
  (c =? 32) || (c =? 9) || (c =? 10) || (c =? 13).

Fixpoint skip_ws (s : list N) : list N :=
  match s with
  | c :: s' => if is_ws c then skip_ws s' else s
  | [] => []
  end.

Definition between (lo hi c : N) : bool := (lo <=? c) && (c <=? hi).

(** One hexadecimal digit of a [\uXXXX] escape. *)
Definition hex_value (c : N) : option N :=
  if between (ord "0") (ord "9") c then Some (c - ord "0")
  else if between (ord "a") (ord "f") c then Some (c - ord "a" + 10)
  else if between (ord "A") (ord "F") c then Some (c - ord "A" + 10)
  else None.

(** [BACKSLASH]: the one-letter escapes. *)
Definition unescape (esc : N) : option N :=
  if esc =? dquote then Some dquote
  else if esc =? backslash then Some backslash
  else if esc =? ord "/" then Some (ord "/")
  else if esc =? ord "b" then Some 8
  else if esc =? ord "f" then Some 12
  else if esc =? ord "n" then Some 10
  else if esc =? ord "r" then Some 13
  else if esc =? ord "t" then Some 9
  else None.

(** A surrogate code point, U+D800 to U+DFFF. *)
Definition surrogate (c : N) : bool := between 55296 57343 c.

(** [scanstring(s, end)], strict: [s] starts right after the opening
    quote; the result is the string and what follows the closing quote.
    A [\uXXXX] escape that names a surrogate is outside the model. *)
Fixpoint scanstring (s : list N) : option (list N * list N) :=
  match s with
  | [] => None
  | c :: s1 =>
      if c =? dquote then Some ([], s1)
      else if c =? backslash then
        match s1 with
        | [] => None
        | esc :: s2 =>
            if esc =? ord "u" then
              match s2 with
              | h1 :: h2 :: h3 :: h4 :: s3 =>
                  match hex_value h1, hex_value h2, hex_value h3, hex_value h4 with
                  | Some x1, Some x2, Some x3, Some x4 =>
                      let uni := ((x1 * 16 + x2) * 16 + x3) * 16 + x4 in
                      if surrogate uni then None
                      else
                        match scanstring s3 with
                        | Some (t, r) => Some (uni :: t, r)
                        | None => None
                        end
                  | _, _, _, _ => None
                  end
              | _ => None
              end
            else
              match unescape esc with
              | Some ch =>
                  match scanstring s2 with
                  | Some (t, r) => Some (ch :: t, r)
                  | None => None
                  end
              | None => None
              end
        end
      else if c <? 32 then None
      else
        match scanstring s1 with
        | Some (t, r) => Some (c :: t, r)
        | None => None
        end
  end.

(** [[0-9]] *)
Definition isdigit (c : N) : bool := between (ord "0") (ord "9") c.

Definition digit_value (c : N) : Z := Z.of_N (c - ord "0").

(** The digits [[0-9]*] at the head of [s], read onto [acc]. *)
Fixpoint read_digits (acc : Z) (s : list N) : Z * list N :=
  match s with
  | c :: s' =>
      if isdigit c then read_digits (10 * acc + digit_value c)%Z s'
      else (acc, s)
  | [] => (acc, s)
  end.

(** The number continues as a float: a fraction [\.[0-9]+] or an
    exponent [[eE][-+]?[0-9]+] follows the integer part. *)
Definition float_follows (s : list N) : bool :=
  match s with
  | c :: s' =>
      if c =? ord "." then
        match s' with d :: _ => isdigit d | [] => false end
      else if (c =? ord "e") || (c =? ord "E") then
        match s' with
        | d :: s'' =>
            if (d =? ord "+") || (d =? ord "-")
            then match s'' with d' :: _ => isdigit d' | [] => false end
            else isdigit d
        | [] => false
        end
      else false
  | [] => false
  end.

(** The integer part of [NUMBER_RE], a single [0], or a digit from 1 to
    9 and then any digits, and its value by [int]: none for more digits
    than the limit. *)
Definition match_natural (s : list N) : option (Z * list N) :=
  match s with
  | c :: s' =>
      if c =? ord "0" then Some (0%Z, s')
      else if isdigit c then
        let (n, r) := read_digits (digit_value c) s' in
        if (max_str_digits <? length s - length r)%nat then None
        else Some (n, r)
      else None
  | [] => None
  end.

(** [match_number] and [parse_int], for a number without fraction or
    exponent. *)
Definition match_number (s : list N) : option (Z * list N) :=
  let signed :=
    match s with
    | c :: s' =>
        if c =? ord "-" then
          match match_natural s' with
          | Some (n, r) => Some ((- n)%Z, r)
          | None => None
          end
        else match_natural s
    | [] => None
    end in
  match signed with
  | Some (n, r) => if float_follows r then None else Some (n, r)
  | None => None
  end.

(** [dict(pairs)]: a later value for a key replaces the earlier one, at
    the place of the earlier one. *)
Fixpoint dict_set (k : list N) (v : value) (d : list (list N * value))
  : list (list N * value) :=
  match d with
  | [] => [(k, v)]
  | (k', v') :: d' =>
      if bool_decide (k' = k) then (k, v) :: d' else (k', v') :: dict_set k v d'
  end.

Definition dict_of_pairs (pairs : list (list N * value)) : list (list N * value) :=
  fold_left (fun d kv => dict_set (fst kv) (snd kv) d) pairs [].

(** [nextchar == c], with the text after [nextchar]. *)
Definition next_is (c : N) (s : list N) : option (list N) :=
  match s with
  | c' :: r => if c' =? c then Some r else None
  | [] => None
  end.

Section Containers.
(** [scan_once], for the values inside a container. *)
Variable scan_once : list N -> option (value * list N).

(** The [while True] loop of [JSONArray]; [s] is at a value. *)
Fixpoint array_loop (n : nat) (values : list value) (s : list N)
  : option (value * list N) :=
  match n with
  | O => None
  | S n' =>
      match scan_once s with
      | Some (v, s1) =>
          let s2 := skip_ws s1 in
          match next_is (ord "]") s2, next_is (ord ",") s2 with
          | Some r, _ => Some (PyList (values ++ [v]), r)
          | None, Some r => array_loop n' (values ++ [v]) (skip_ws r)
          | None, None => None
          end
      | None => None
      end
  end.

(** [JSONArray]: [s] starts right after the bracket. *)
Definition parse_array (n : nat) (s : list N) : option (value * list N) :=
  let s' := skip_ws s in
  match next_is (ord "]") s' with
  | Some r => Some (PyList [], r)
  | None => array_loop n [] s'
  end.

(** The [while True] loop of [JSONObject]; [s] starts right after the
    opening quote of a key. *)
Fixpoint object_loop (n : nat) (pairs : list (list N * value)) (s : list N)
  : option (value * list N) :=
  match n with
  | O => None
  | S n' =>
      match scanstring s with
      | Some (key, s1) =>
          match next_is (ord ":") (skip_ws s1) with
          | Some s2 =>
              match scan_once (skip_ws s2) with
              | Some (v, s3) =>
                  let s4 := skip_ws s3 in
                  match next_is (ord "}") s4, next_is (ord ",") s4 with
                  | Some r, _ =>
                      Some (PyDict (dict_of_pairs (pairs ++ [(key, v)])), r)
                  | None, Some r =>
                      match next_is dquote (skip_ws r) with
                      | Some r' => object_loop n' (pairs ++ [(key, v)]) r'
                      | None => None
                      end
                  | None, None => None
                  end
              | None => None
              end
          | None => None
          end
      | None => None
      end
  end.

(** [JSONObject]: [s] starts right after the brace. *)
Definition parse_object (n : nat) (s : list N) : option (value * list N) :=
  let s' := skip_ws s in
  match next_is (ord "}") s', next_is dquote s' with
  | Some r, _ => Some (PyDict [], r)
  | None, Some r => object_loop n [] r
  | None, None => None
  end.
End Containers.

(** [s[idx:idx + 4] == 'null'] *)
Definition after_null (s : list N) : option (list N) :=
  match s with
  | c1 :: c2 :: c3 :: c4 :: r =>
      if (c1 =? ord "n") && (c2 =? ord "u") && (c3 =? ord "l") && (c4 =? ord "l")
      then Some r else None
  | _ => None
  end.

(** [scan_once(string, idx)].  [fuel] bounds the nesting and the number
    of items of a container; the length of the text is enough. *)
Fixpoint scan_once (fuel : nat) (s : list N) : option (value * list N) :=
  match fuel with
  | O => None
  | S fuel' =>
      match s with
      | [] => None
      | c :: s' =>
          if c =? dquote then
            match scanstring s' with
            | Some (str, r) => Some (PyStr str, r)
            | None => None
            end
          else if c =? ord "{" then parse_object (scan_once fuel') fuel' s'
          else if c =? ord "[" then parse_array (scan_once fuel') fuel' s'
          else
            match after_null s with
            | Some r => Some (PyNone, r)
            | None =>
                match match_number s with
                | Some (n, r) => Some (PyInt n, r)
                | None => None
                end
            end
      end
  end.

(** [json.loads(s)]: one value, white space around it, nothing else. *)
Definition loads (s : list N) : option value :=
  match scan_once (length s) (skip_ws s) with
  | Some (v, r) =>
      match skip_ws r with
      | [] => Some v
      | _ :: _ => None
      end
  | None => None
  end.

(** *** The text layer of the file *)

(** A code point that UTF-8 can encode: a Unicode scalar value. *)
Definition scalar (c : N) : bool := (c <? 1114112) && negb (surrogate c).

(** A UTF-8-safe text. *)
Definition utf8_safe (s : list N) : Prop := Forall (fun c => scalar c = true) s.

(** The bytes of one code point; none for a surrogate
    ([UnicodeEncodeError]). *)
Definition utf8_char (c : N) : option (list N) :=
  if c <? 128 then Some [c]
  else if c <? 2048 then Some [192 + c / 64; 128 + c mod 64]
  else if c <? 65536 then
    if surrogate c then None
    else Some [224 + c / 4096; 128 + (c / 64) mod 64; 128 + c mod 64]
  else if c <? 1114112 then
    Some [240 + c / 262144; 128 + (c / 4096) mod 64;
          128 + (c / 64) mod 64; 128 + c mod 64]
  else None.

(** [s.encode('utf-8')] *)
Fixpoint utf8_encode (s : list N) : option (list N) :=
  match s with
  | [] => Some []
  | c :: s' =>
      match utf8_char c, utf8_encode s' with
      | Some bs, Some rest => Some (bs ++ rest)
      | _, _ => None
      end
  end.

(** A continuation byte, [10xxxxxx]. *)
Definition continuation (b : N) : bool := between 128 191 b.

Definition decoded (c : N) (rest : option (list N)) : option (list N) :=
  match rest with
  | Some s => Some (c :: s)
  | None => None
  end.

(** [bs.decode('utf-8')]: the shortest form only, no surrogate, nothing
    above U+10FFFF; [None] is [UnicodeDecodeError]. *)
Fixpoint utf8_decode (bs : list N) : option (list N) :=
  match bs with
  | [] => Some []
  | b1 :: r1 =>
      if b1 <? 128 then decoded b1 (utf8_decode r1)
      else if b1 <? 194 then None
      else if b1 <? 224 then
        match r1 with
        | b2 :: r2 =>
            if continuation b2
            then decoded ((b1 - 192) * 64 + (b2 - 128)) (utf8_decode r2)
            else None
        | _ => None
        end
      else if b1 <? 240 then
        match r1 with
        | b2 :: b3 :: r3 =>
            let c := (b1 - 224) * 4096 + (b2 - 128) * 64 + (b3 - 128) in
            if continuation b2 && continuation b3
               && (2048 <=? c) && negb (surrogate c)
            then decoded c (utf8_decode r3)
            else None
        | _ => None
        end
      else if b1 <? 245 then
        match r1 with
        | b2 :: b3 :: b4 :: r4 =>
            let c := (b1 - 240) * 262144 + (b2 - 128) * 4096
                     + (b3 - 128) * 64 + (b4 - 128) in
            if continuation b2 && continuation b3 && continuation b4
               && (65536 <=? c) && (c <? 1114112)
            then decoded c (utf8_decode r4)
            else None
        | _ => None
        end
      else None
  end.

(** [os.linesep] *)
Inductive Newline : Type := LF | CRLF.

Definition linesep (nl : Newline) : list N :=
  match nl with
  | LF => [line_feed]
  | CRLF => [carriage_return; line_feed]
  end.

(** Writing with [newline=None]: every line feed becomes [os.linesep]. *)
Fixpoint write_newlines (nl : Newline) (s : list N) : list N :=
  match s with
  | [] => []
  | c :: s' =>
      (if c =? line_feed then linesep nl else [c]) ++ write_newlines nl s'
  end.

(** Reading with [newline=None]: a carriage return, with the line feed
    after it if there is one, becomes a line feed. *)
Fixpoint read_newlines (s : list N) : list N :=
  match s with
  | [] => []
  | c :: s' =>
      if c =? carriage_return then
        match s' with
        | d :: s'' =>
            if d =? line_feed then line_feed :: read_newlines s''
            else line_feed :: read_newlines s'
        | [] => [line_feed]
        end
      else c :: read_newlines s'
  end.

(** What [f.write] leaves in a file opened with
    [open(path, 'w', encoding='utf-8')] once all of [s] is written; none
    when the codec raises. *)
Definition write_text (nl : Newline) (s : list N) : option (list N) :=
  utf8_encode (write_newlines nl s).

(** [f.read()] on a file opened with [open(path, 'r', encoding='utf-8')]. *)
Definition read_text (file : list N) : option (list N) :=
  read_newlines <$> utf8_decode file.

(** *** The records *)

(** The dictionary [citation] of the extractor as the encoder sees it:
    four keys in insertion order, texts as code points. *)
Record CitationRecord : Type := mkRecord {
  record_title : option (list N);
  record_authors : list (list N);
  record_proceedings : option (list N);
  record_year : option Z
}.

(** The record of a citation of the extractor. *)
Definition record_of (c : Citations.Citation) : CitationRecord :=
  {| record_title := code_points <$> Citations.title c;
     record_authors := code_points <$> Citations.authors c;
     record_proceedings := code_points <$> Citations.proceedings c;
     record_year := Citations.year c |}.

(** The text fields of a record. *)
Definition record_texts (r : CitationRecord) : list (list N) :=
  option_list (record_title r) ++ record_authors r
  ++ option_list (record_proceedings r).

(** Every text field of the record is UTF-8-safe. *)
Definition safe_record (r : CitationRecord) : Prop :=
  Forall utf8_safe (record_texts r).

(** The year of the record, if any, is within the limit on the digits of
    an integer; every year of four digits is. *)
Definition year_within_limit (r : CitationRecord) : Prop :=
  match record_year r with
  | Some y => (digits y <= max_str_digits)%nat
  | None => True
  end.

Definition of_option {A} (f : A -> value) (o : option A) : value :=
  match o with Some a => f a | None => PyNone end.

Definition of_citation (r : CitationRecord) : value :=
  PyDict [ (code_points "title", of_option PyStr (record_title r));
           (code_points "authors", PyList (map PyStr (record_authors r)));
           (code_points "proceedings", of_option PyStr (record_proceedings r));
           (code_points "year", of_option PyInt (record_year r)) ].

Definition of_citations (rs : list CitationRecord) : value :=
  PyList (map of_citation rs).

(** Lines 229-230 of [main], once the file is open: the bytes that the
    [with] block leaves in it; none when [json.dump] or [f.write]
    raises. *)
Definition dump_citations (nl : Newline) (all_citations : list CitationRecord)
  : option (list N) :=
  dumps (of_citations all_citations) ≫= write_text nl.

(** [load_citations] of [task/example_starter.py], on the bytes of the
    file. *)
Definition load_citations (file : list N) : option value :=
  read_text file ≫= loads.

(** [d[key]] on a loaded dictionary. *)
Definition dict_get (key : list N) (v : value) : option value :=
  match v with
  | PyDict items => snd <$> List.find (fun kv => bool_decide (fst kv = key)) items
  | _ => None
  end.

(** The fields of a loaded record, read back by their keys. *)
Definition to_text (v : value) : option (option (list N)) :=
  match v with
  | PyNone => Some None
  | PyStr s => Some (Some s)
  | _ => None
  end.

Definition to_int (v : value) : option (option Z) :=
  match v with
  | PyNone => Some None
  | PyInt z => Some (Some z)
  | _ => None
  end.

Definition to_texts (v : value) : option (list (list N)) :=
  match v with
  | PyList items =>
      mapM (fun x => match x with PyStr s => Some s | _ => None end) items
  | _ => None
  end.

Definition to_citation (v : value) : option CitationRecord :=
  t ← dict_get (code_points "title") v ≫= to_text;
  a ← dict_get (code_points "authors") v ≫= to_texts;
  p ← dict_get (code_points "proceedings") v ≫= to_text;
  y ← dict_get (code_points "year") v ≫= to_int;
  Some (mkRecord t a p y).

Definition to_citations (v : value) : option (list CitationRecord) :=
  match v with
  | PyList items => mapM to_citation items
  | _ => None
  end.

(** *** Measures and shapes used in the proofs *)

(** The number of values in a value, itself included. *)
Fixpoint size (v : value) : nat :=
  match v with
  | PyList items => S (list_sum (map size items))
  | PyDict items => S (list_sum (map (fun kv => size (snd kv)) items))
  | _ => 1
  end.

(** A dictionary holds one value per key, at every depth. *)
Fixpoint distinct_keys (v : value) : Prop :=
  match v with
  | PyList items => Forall id (map distinct_keys items)
  | PyDict items =>
      NoDup (map fst items)
      ∧ Forall id (map (fun kv => distinct_keys (snd kv)) items)
  | _ => True
  end.

(** The text after a number does not continue it: it is empty, or starts
    with a character that is no digit, point or exponent mark. *)
Definition ends_number (rest : list N) : Prop :=
  match rest with
  | [] => True
  | c :: _ => isdigit c = false ∧ c ≠ ord "." ∧ c ≠ ord "e" ∧ c ≠ ord "E"
  end.

(** The first character of an encoded value: no white space, no closing
    bracket or brace. *)
Definition opens_value (c : N) : Prop :=
  is_ws c = false ∧ c ≠ ord "]" ∧ c ≠ ord "}".

(** Every text of a value, the keys of its dictionaries included. *)
Fixpoint texts (v : value) : list (list N) :=
  match v with
  | PyStr s => [s]
  | PyList items => concat (map texts items)
  | PyDict items => concat (map (fun kv => fst kv :: texts (snd kv)) items)
  | _ => []
  end.

(** The same value with every text that is no key emptied: what is left
    is the layout. *)
Fixpoint layout (v : value) : value :=
  match v with
  | PyStr _ => PyStr []
  | PyList items => PyList (map layout items)
  | PyDict items => PyDict (map (fun kv => (fst kv, layout (snd kv))) items)
  | _ => v
  end.

(** The control characters of a text, U+0000 to U+001F, in their
    order. *)
Definition control_characters (s : list N) : list N :=
  filter (fun c => c < 32) s.

End Json.

(** ** The field rules as ordered chains

    The definitions of this module are written from the wording of the
    specification (an ordered list of rules per field, the first one that
    yields a value wins); the theorems below compare them with the code.
    Where the code tests the rules of a chain differently, the chain is
    given both as it is worded and with the tests of the code. *)

Module Spec.
Import ET Citations.

(** The first rule of the chain that yields a value. *)
Fixpoint first_success {A} (rules : list (option A)) : option A :=
  match rules with
  | [] => None
  | Some a :: _ => Some a
  | None :: rest => first_success rest
  end.

Definition full_text (e : Element) : string := Py.strip (Py.concat (itertext e)).

(** *** Title *)

Definition analytic_main (b : Element) : option Element :=
  find_desc (tei "analytic") b ≫= find_desc_attr (tei "title") "type" "main".
Definition analytic_article (b : Element) : option Element :=
  find_desc (tei "analytic") b ≫= find_desc_attr (tei "title") "level" "a".
Definition monogr_main (b : Element) : option Element :=
  find_desc (tei "monogr") b ≫= find_desc_attr (tei "title") "type" "main".
Definition monogr_level (b : Element) : option Element :=
  find_desc (tei "monogr") b ≫= find_desc_attr (tei "title") "level" "m".

(** The four title rules in their order, stopping at the first element
    found. *)
Definition title_chain (b : Element) : option string :=
  full_text <$> first_success
    [analytic_main b; analytic_article b; monogr_main b; monogr_level b].

(** The same rules, where an analytic title without text does not stop
    the search of the monogr section. *)
Definition analytic_title (b : Element) : option string :=
  full_text <$> first_success [analytic_main b; analytic_article b].
Definition monogr_title (b : Element) : option string :=
  full_text <$> first_success [monogr_main b; monogr_level b].
Definition title_with_retry (b : Element) : option string :=
  match analytic_title b with
  | Some t => if decide (t = "") then first_success [monogr_title b; Some t] else Some t
  | None => monogr_title b
  end.

(** *** Authors *)

(** The given-name components of a personal name: the trimmed text of
    each [forename] child that has some. *)
Definition given_names (pers_name : Element) : list string :=
  filter (fun t => t ≠ "")
         (omap (fun f => extract_text (Some f))
               (findall_child (tei "forename") pers_name)).

(** The family name: the trimmed text of the [surname] child, when it has
    some. *)
Definition family_name (pers_name : Element) : option string :=
  extract_text (find_child (tei "surname") pers_name)
    ≫= fun t => if decide (t = "") then None else Some t.

Definition display_name (given : list string) (family : option string)
  : option string :=
  match given, family with
  | _ :: _, Some f => Some (Py.join " " given +:+ " " +:+ f)
  | [], Some f => Some f
  | _, None => None
  end.

(** The entry one [author] element contributes, if any. *)
Definition author_entry (author : Element) : option string :=
  find_desc (tei "persName") author
    ≫= fun p => display_name (given_names p) (family_name p).

(** *** Venue *)

(** The three rules with the test that the code applies to each: the
    meeting decides when its trimmed text is not empty, a title at journal
    level as soon as the element is there, a title at monograph level when
    its text is not empty and is not the resolved title. *)
Definition venue_meeting (monogr : Element) : option string :=
  extract_text (find_child (tei "meeting") monogr)
    ≫= fun t => if decide (t = "") then None else Some t.
Definition venue_journal (monogr : Element) : option string :=
  full_text <$> find_desc_attr (tei "title") "level" "j" monogr.
Definition venue_monograph (resolved_title : option string) (monogr : Element)
  : option string :=
  (full_text <$> find_desc_attr (tei "title") "level" "m" monogr)
    ≫= fun t =>
         if decide (t = "") then None
         else if decide (Some t = resolved_title) then None
         else Some t.

Definition venue_chain (resolved_title : option string) (b : Element)
  : option string :=
  find_desc (tei "monogr") b
    ≫= fun monogr =>
         first_success [venue_meeting monogr; venue_journal monogr;
                        venue_monograph resolved_title monogr].

(** The chain as it is worded, with one test of success for the three
    rules.  The wording leaves two readings of that test: a rule succeeds
    when its element is there ([venue_by_element]), or when it yields a
    text that is not empty ([venue_by_text]).  In both, the rule of the
    monograph level asks in addition that the text differs from the
    resolved title. *)
Definition trimmed_text (e : Element) : string := Py.strip (default "" (text e)).

Definition nonempty (t : string) : option string :=
  if decide (t = "") then None else Some t.

Definition differs_from (resolved_title : option string) (t : string)
  : option string :=
  if decide (Some t = resolved_title) then None else Some t.

Definition venue_by_element (resolved_title : option string) (b : Element)
  : option string :=
  find_desc (tei "monogr") b
    ≫= fun monogr =>
         first_success
           [ trimmed_text <$> find_child (tei "meeting") monogr;
             full_text <$> find_desc_attr (tei "title") "level" "j" monogr;
             (full_text <$> find_desc_attr (tei "title") "level" "m" monogr)
               ≫= differs_from resolved_title ].

Definition venue_by_text (resolved_title : option string) (b : Element)
  : option string :=
  find_desc (tei "monogr") b
    ≫= fun monogr =>
         first_success
           [ (trimmed_text <$> find_child (tei "meeting") monogr) ≫= nonempty;
             (full_text <$> find_desc_attr (tei "title") "level" "j" monogr)
               ≫= nonempty;
             ((full_text <$> find_desc_attr (tei "title") "level" "m" monogr)
                ≫= nonempty) ≫= differs_from resolved_title ].

(** *** Year *)

(** The date element of the imprint: the one marked as published, else
    any. *)
Definition date_element (b : Element) : option Element :=
  find_desc (tei "imprint") b
    ≫= fun imprint =>
         first_success [find_desc_attr (tei "date") "type" "published" imprint;
                        find_desc (tei "date") imprint].

(** The leading four characters of the [when] attribute, as an
    integer. *)
Definition attribute_year (d : Element) : option Z :=
  get d "when" ≫= fun w => Py.int (Py.slice_to 4 w).

Definition four_digits (c1 c2 c3 c4 : ascii) : string :=
  String c1 (String c2 (String c3 (String c4 EmptyString))).

(** A four-digit sequence that begins with 19 or 20. *)
Definition year_digits (m : string) : Prop :=
  ∃ c3 c4, (m = four_digits "1" "9" c3 c4 ∨ m = four_digits "2" "0" c3 c4)
           ∧ Py.isdigit c3 = true ∧ Py.isdigit c4 = true.

(** The first four-digit sequence of [t] that begins with 19 or 20,
    wherever it stands. *)
Fixpoint first_year_digits (t : string) : option string :=
  match t with
  | String c1 (String c2 (String c3 (String c4 _)) as t') =>
      if ((Ascii.eqb c1 "1" && Ascii.eqb c2 "9")
          || (Ascii.eqb c1 "2" && Ascii.eqb c2 "0"))
         && Py.isdigit c3 && Py.isdigit c4
      then Some (four_digits c1 c2 c3 c4)
      else first_year_digits t'
  | _ => None
  end.

(** [m] stands at offset [i] of [t] as a word of its own: the four
    characters from [i] on are [m], and no letter, digit or underscore
    touches them.  [prev] is the character before [t], if any. *)
Definition year_word_from (prev : option ascii) (t : string) (i : nat) (m : string)
  : Prop :=
  String.substring i 4 t = m ∧ year_digits m
  ∧ Py.word_at (match i with O => prev | S j => String.get j t end) = false
  ∧ Py.word_at (String.get (i + 4) t) = false.

Definition year_word_at : string → nat → string → Prop := year_word_from None.

Definition first_year_word (t : string) (m : string) : Prop :=
  ∃ i, year_word_at t i m ∧ ∀ j m', (j < i)%nat → ¬ year_word_at t j m'.

(** The year read in the text of the date element. *)
Definition text_year (d : Element) : option Z :=
  (extract_text (Some d) ≫= Py.search_year) ≫= Py.int.

(** *** Emission *)

Definition has_title (c : Citation) : Prop :=
  title c ≠ None ∧ title c ≠ Some "".

Definition emitted (c : Citation) : Prop := has_title c ∨ authors c ≠ [].

#[export] Instance emitted_dec c : Decision (emitted c).
Proof. unfold emitted, has_title. apply _. Defined.

(** *** Errors *)

Definition returned {A} (r : exn + A) : option A :=
  match r with inr a => Some a | inl _ => None end.

End Spec.

(** ** Sample documents *)

Module Samples.
Import ET Citations.

(** A TEI element without tail. *)
Definition el (name : string) (attrs : list (string * string))
           (txt : option string) (cs : list Element) : Element :=
  mkElement (tei name) (list_to_map attrs) txt None cs.

Definition person (given : list string) (family : option string) : Element :=
  el "author" []
     None
     [el "persName" [] None
         (map (fun g => el "forename" [("type", "first")] (Some g) []) given
          ++ match family with
             | Some f => [el "surname" [] (Some f) []]
             | None => []
             end)].

(** A conference paper: analytic title and authors, a meeting and a
    dated imprint. *)
Definition attention : Element :=
  el "biblStruct" [("xml:id", "b0")] None
     [el "analytic" [] None
         [el "title" [("level", "a"); ("type", "main")]
             (Some "Attention Is All You Need") [];
          person ["Ashish"] (Some "Vaswani");
          person ["Noam"] (Some "Shazeer")];
      el "monogr" [] None
         [el "meeting" [] (Some "NeurIPS") [];
          el "imprint" [] None
             [el "date" [("type", "published"); ("when", "2017-12-04")] None []]]].

(** A book: a monograph-level title only. *)
Definition book : Element :=
  el "biblStruct" [("xml:id", "b1")] None
     [el "monogr" [] None
         [el "title" [("level", "m"); ("type", "main")]
             (Some "The Art of Computer Programming") [];
          el "imprint" [] None [el "date" [] (Some "In press, 2021") []]]].

(** A reference to a journal as a whole. *)
Definition journal : Element :=
  el "biblStruct" [("xml:id", "b2")] None
     [el "monogr" [] None
         [el "title" [("level", "j"); ("type", "main")] (Some "Nature") [];
          el "imprint" [] None [el "date" [("type", "published"); ("when", "2001")] None []]]].

(** An analytic section whose main title has no text, next to an
    article-level title, inside a titled monograph. *)
Definition blank_main_title : Element :=
  el "biblStruct" [("xml:id", "b3")] None
     [el "analytic" [] None
         [el "title" [("type", "main")] None [];
          el "title" [("level", "a")] (Some "Real") []];
      el "monogr" [] None
         [el "title" [("level", "m"); ("type", "main")] (Some "Book") []]].

(** A chapter of a book. *)
Definition chapter : Element :=
  el "biblStruct" [("xml:id", "b4")] None
     [el "analytic" [] None
         [el "title" [("level", "a"); ("type", "main")] (Some "Sorting") [];
          person ["Donald"; "E"] (Some "Knuth")];
      el "monogr" [] None
         [el "title" [("level", "m")] (Some "Handbook of Algorithms") []]].

Definition dated (date : Element) : Element :=
  el "biblStruct" [] None
     [el "analytic" [] None [el "title" [("type", "main")] (Some "T") []];
      el "monogr" [] None [el "imprint" [] None [date]]].

(** A copyright year, as library catalogues print it. *)
Definition copyright_date : Element := el "date" [] (Some "c2019") [].

(** A date before the common era, in the format of the [when]
    attribute, and a two-digit one. *)
Definition bce_date : Element :=
  el "date" [("type", "published"); ("when", "-0500")] None [].
Definition short_date : Element :=
  el "date" [("type", "published"); ("when", "17")] (Some "2017") [].

(** An attribute and a text that disagree. *)
Definition disagreeing_date : Element :=
  el "date" [("type", "published"); ("when", "2017-12-04")] (Some "December 2018") [].

(** An author with given names only. *)
Definition mononym : Element := person ["Aristotle"] None.

(** A document with three references. *)
Definition three_references : Element :=
  el "TEI" [] None
     [el "text" [] None
         [el "listBibl" [] None [attention; book; journal]]].

(** A title with nested markup: [<title> Bo<hi>o</hi>k </title>]. *)
Definition marked_up_title : Element :=
  mkElement (tei "title") (list_to_map [("type", "main")]) (Some " Bo") None
            [mkElement (tei "hi") ∅ (Some "o") (Some "k ") []].

(** References nested in one another; the root is a reference itself. *)
Definition nested_references : Element :=
  el "biblStruct" [("xml:id", "root")] None
     [el "note" [] None
         [el "biblStruct" [("xml:id", "outer")] None
             [el "analytic" [] None
                 [el "biblStruct" [("xml:id", "inner")] None []]]];
      el "biblStruct" [("xml:id", "last")] None []].

(** A loop body that raises on the reference [b1] and behaves as the
    extractor on the others. *)
Definition raising_on_b1 (b : Element) : exn + Citation :=
  if bool_decide (get b "xml:id" = Some "b1") then inl OtherException
  else inr (citation_of b).

End Samples.

(** ** The command line: [main] of [src/parse_citations.py] *)

Module Cli.
Import ET Citations.

(** How a run of [main] ends. *)
Inductive Outcome : Type :=
| NoInput
| Raised (e : exn)
| Saved (file : list N).

(** Lines 217-232.  [input] is what [args.input] holds: [None] when it is
    no directory, else the outcome of [ET.parse] for each of its [*.xml]
    files, in the order of the glob.  [output] is the outcome of
    [open(args.output, 'w', encoding='utf-8')]: the exception it raises
    (the path lies in a missing directory, is a directory, may not be
    written), or the line end of the platform for the file it opens.
    Line 229 stands outside any [try], so the exception leaves [main]
    and nothing is written; the records are parsed before the file is
    opened.  [Saved file] gives the bytes of the file when [main]
    returns; if [json.dump] or [f.write] raises, the exception leaves
    [main] as well.  The messages that [main] prints are not part of the
    model. *)
Definition main (input : option (list (exn + Element)))
                (output : exn + Json.Newline) : Outcome :=
  match input with
  | None => NoInput
  | Some xml_files =>
      let all_citations := parse_all_xml_files xml_files in
      match output with
      | inl e => Raised e
      | inr nl =>
          match Json.dump_citations nl (Json.record_of <$> all_citations) with
          | Some file => Saved file
          | None => Raised OtherException
          end
      end
  end.

End Cli.

(** ** The verification example: [task/example_starter.py]

    The search of arXiv and the similarity of two titles are outside the
    program; they are the variables of the section below. *)

Module Starter.
Import Citations.

(** One entry of [discrepancies], with its keys [type] and [details]. *)
Record Discrepancy : Type := mkDiscrepancy {
  type : string;
  details : string
}.

(** The dictionary [compare_authors] returns; [is_match] is its key
    [match]. *)
Record Comparison : Type := mkComparison {
  is_match : bool;
  discrepancies : list Discrepancy
}.

(** Lines 71-106. *)
Definition compare_authors (original_authors verified_authors : list string)
  : Comparison :=
  let discrepancies := [] in
  let missing := filter (fun a => a ∉ original_authors) verified_authors in
  let discrepancies :=
    if truthy_list missing
    then discrepancies
         ++ [mkDiscrepancy "missing_author"
               ("Missing authors: " +:+ Py.join ", " missing)]
    else discrepancies in
  let extra := filter (fun a => a ∉ verified_authors) original_authors in
  let discrepancies :=
    if truthy_list extra
    then discrepancies
         ++ [mkDiscrepancy "extra_author"
               ("Extra authors in original: " +:+ Py.join ", " extra)]
    else discrepancies in
  let discrepancies :=
    match original_authors, verified_authors with
    | o :: _, v :: _ =>
        if bool_decide (o ≠ v)
        then discrepancies
             ++ [mkDiscrepancy "wrong_order"
                   ("First author mismatch: '" +:+ o +:+ "' vs '" +:+ v +:+ "'")]
        else discrepancies
    | _, _ => discrepancies
    end in
  mkComparison (bool_decide (length discrepancies = 0%nat)) discrepancies.

(** What the program reads of an [arxiv.Result]: its title, the names of
    its authors and the year of [published], if any. *)
Record ArxivResult : Type := mkArxivResult {
  result_title : string;
  result_authors : list string;
  published : option Z
}.

(** The dictionary [query_arxiv_by_title] returns for a match. *)
Record Match : Type := mkMatch {
  match_title : string;
  match_authors : list string;
  match_year : option Z;
  match_score : Z
}.

(** The dictionary [verify_citation] returns: without a match the keys
    [status] and [message]; with one the keys [status], [source],
    [verified_authors], [match_score] and [comparison]. *)
Inductive Verification : Type :=
| NotFound (status message : string)
| Checked (status source : string) (verified_authors : list string)
          (match_score : Z) (comparison : Comparison).

Section Arxiv.
(** [fuzz.ratio(a.lower(), b.lower())] *)
Variable similarity : string -> string -> Z.

(** [client.results(arxiv.Search(query=title, max_results=n,
    sort_by=Relevance))], read to its end: the results, or the exception
    raised on the way. *)
Variable results : string -> nat -> exn + list ArxivResult.

(** Lines 47-54: the body of the loop, on [(best_match, best_score)]. *)
Definition consider (title : string) (best : option ArxivResult * Z)
           (result : ArxivResult) : option ArxivResult * Z :=
  let score := similarity (result_title result) title in
  if snd best <? score then (Some result, score) else best.

(** Lines 25-68. *)
Definition query_arxiv_by_title (title : string) (max_results : nat)
  : option Match :=
  match results title max_results with
  | inl _ => None
  | inr found =>
      let best := fold_left (consider title) found (None, 0) in
      match fst best with
      | Some best_match =>
          if 80 <=? snd best
          then Some (mkMatch (result_title best_match) (result_authors best_match)
                             (published best_match) (snd best))
          else None
      | None => None
      end
  end.

(** Lines 109-151, on a dictionary loaded from the file the extractor
    wrote: its four keys are there, [title] may be [None].  Slicing
    [None] for the progress message raises [TypeError]. *)
Definition verify_citation (citation : Citation) : exn + Verification :=
  match title citation with
  | None => inl OtherException
  | Some t =>
      match query_arxiv_by_title t 5 with
      | None => inr (NotFound "not_found" "Paper not found in arXiv")
      | Some arxiv_result =>
          let comparison :=
            compare_authors (authors citation) (match_authors arxiv_result) in
          inr (Checked (if is_match comparison then "verified"
                        else "discrepancy_found")
                       "arxiv" (match_authors arxiv_result)
                       (match_score arxiv_result) comparison)
      end
  end.

(** Lines 166-173: the loop of [main]; an exception of [verify_citation]
    is not caught. *)
Fixpoint verify_each (citations : list Citation)
         (results : list (Citation * Verification))
  : exn + list (Citation * Verification) :=
  match citations with
  | [] => inr results
  | citation :: rest =>
      match verify_citation citation with
      | inl e => inl e
      | inr result => verify_each rest (results ++ [(citation, result)])
      end
  end.

(** Lines 154-180, from the loaded citations to the [results] that are
    dumped: [citations[:5]] are verified. *)
Definition main (citations : list Citation)
  : exn + list (Citation * Verification) :=
  verify_each (take 5 citations) [].
End Arxiv.

End Starter.

(** ** More sample documents *)

Module MoreSamples.
Import ET Citations Samples.

(** A reference with authors and no title. *)
Definition untitled : Element :=
  el "biblStruct" [("xml:id", "b5")] None
     [el "analytic" [] None [person ["Ada"] (Some "Lovelace")]].

(** A reference with neither an analytic nor a monogr section. *)
Definition bare : Element :=
  el "biblStruct" [("xml:id", "b6")] None
     [el "note" [] (Some "personal communication") [];
      el "imprint" [] None [el "date" [("when", "1999")] None []]].

(** A title without markup. *)
Definition plain_title : Element :=
  el "title" [("type", "main")] (Some "  On Computable Numbers ") [].

(** A search that answers every query with two papers, and a similarity
    that only knows their titles. *)
Definition two_papers (title : string) (max_results : nat)
  : exn + list Starter.ArxivResult :=
  inr [Starter.mkArxivResult "Attention Is All You Need!"
         ["Ashish Vaswani"; "Noam Shazeer"] (Some 2017);
       Starter.mkArxivResult "Attention Is All You Need"
         ["Noam Shazeer"; "Ashish Vaswani"] None].

Definition by_length (a b : string) : Z :=
  if String.eqb a b then 100
  else if (String.length a =? S (String.length b))%nat then 96
  else 10.

(** A meeting that holds only an address, next to a journal title. *)
Definition meeting_without_name : Element :=
  el "biblStruct" [("xml:id", "b7")] None
     [el "analytic" [] None
         [el "title" [("level", "a"); ("type", "main")] (Some "A Paper") []];
      el "monogr" [] None
         [el "meeting" [] None
             [el "address" [] None [el "addrLine" [] (Some "Paris") []]];
          el "title" [("level", "j")] (Some "Journal") []]].

(** A journal title without text, before a title at monograph level. *)
Definition journal_title_without_text : Element :=
  el "biblStruct" [("xml:id", "b8")] None
     [el "analytic" [] None
         [el "title" [("level", "a"); ("type", "main")] (Some "A Paper") []];
      el "monogr" [] None
         [el "title" [("level", "j")] None [];
          el "title" [("level", "m")] (Some "Proc") []]].

(** Records with text outside Latin-1: an en dash, an ideograph and an
    emoji, next to a line feed and a quote. *)
Definition wide_records : list Json.CitationRecord :=
  [ Json.mkRecord (Some [8211; 20013; 128512; 10; 34]%N)
                  [Json.code_points "Ada Lovelace"; [321; 243; 100; 378]%N]
                  (Some [26085; 26412]%N) (Some 2017);
    Json.mkRecord None [] None (Some (-44)) ].

(** A title that is a lone surrogate. *)
Definition lone_surrogate : Json.CitationRecord :=
  Json.mkRecord (Some [55357]%N) [] None None.
End MoreSamples.

(** ** Properties of the extractor *)

Import ET Citations.

(** *** Truth values *)

Lemma truthy_nonempty s : Py.truthy s = true ↔ s ≠ "".
Proof. destruct s; simpl; split; congruence. Qed.

Lemma truthy_empty s : Py.truthy s = false ↔ s = "".
Proof. destruct s; simpl; split; congruence. Qed.

Lemma truthy_opt_has_title c :
  truthy_opt (title c) = true ↔ Spec.has_title c.
Proof.
  unfold Spec.has_title. destruct (title c) as [[|a t]|]; simpl;
    split; try congruence; try (intros []; congruence); try done.
Qed.

Lemma truthy_list_nonempty {A} (l : list A) : truthy_list l = true ↔ l ≠ [].
Proof. destruct l; simpl; split; congruence. Qed.

Lemma worth_keeping_emitted c : worth_keeping c = true ↔ Spec.emitted c.
Proof.
  unfold worth_keeping, Spec.emitted.
  rewrite orb_true_iff, truthy_opt_has_title, truthy_list_nonempty. done.
Qed.

(** *** What each block leaves alone *)

Lemma monogr_title_block_authors b c : authors (monogr_title_block b c) = authors c.
Proof. unfold monogr_title_block. repeat case_match; done. Qed.

Lemma monogr_title_block_proceedings b c :
  proceedings (monogr_title_block b c) = proceedings c.
Proof. unfold monogr_title_block. repeat case_match; done. Qed.

Lemma monogr_title_block_year b c : year (monogr_title_block b c) = year c.
Proof. unfold monogr_title_block. repeat case_match; done. Qed.

Lemma analytic_block_proceedings b c : proceedings (analytic_block b c) = proceedings c.
Proof. unfold analytic_block. repeat case_match; done. Qed.

Lemma analytic_block_year b c : year (analytic_block b c) = year c.
Proof. unfold analytic_block. repeat case_match; done. Qed.

Lemma proceedings_block_title b c : title (proceedings_block b c) = title c.
Proof. unfold proceedings_block. repeat case_match; done. Qed.

Lemma proceedings_block_authors b c : authors (proceedings_block b c) = authors c.
Proof. unfold proceedings_block. repeat case_match; done. Qed.

Lemma proceedings_block_year b c : year (proceedings_block b c) = year c.
Proof. unfold proceedings_block. repeat case_match; done. Qed.

Lemma year_from_date_keeps d c :
  title (year_from_date d c) = title c
  ∧ authors (year_from_date d c) = authors c
  ∧ proceedings (year_from_date d c) = proceedings c.
Proof. unfold year_from_date. repeat case_match; done. Qed.

Lemma year_block_keeps b c :
  title (year_block b c) = title c
  ∧ authors (year_block b c) = authors c
  ∧ proceedings (year_block b c) = proceedings c.
Proof.
  unfold year_block. repeat case_match; auto using year_from_date_keeps.
Qed.

(** *** The loop over the references *)

Section LoopFacts.
Variable body : Element → exn + Citation.

Lemma keep_step (acc : list Citation) c :
  (if worth_keeping c then acc ++ [c] else acc) = acc ++ filter Spec.emitted [c].
Proof.
  destruct (worth_keeping c) eqn:K.
  - rewrite filter_cons_True, filter_nil by (by apply worth_keeping_emitted). done.
  - rewrite filter_cons_False, filter_nil, app_nil_r; [done|].
    rewrite <- worth_keeping_emitted. congruence.
Qed.

(** As long as the body returns, the loop appends the records worth
    keeping, in the order of the references. *)
Lemma for_each_returns bs : ∀ acc,
  Forall (λ b, is_Some (Spec.returned (body b))) bs →
  for_each body bs acc
  = (acc ++ filter Spec.emitted (omap (λ b, Spec.returned (body b)) bs), None).
Proof.
  induction bs as [|b bs IH]; intros acc Hok; simpl.
  - by rewrite filter_nil, app_nil_r.
  - inversion Hok as [|? ? [c Hc] Hrest]; subst.
    destruct (body b) as [e|c'] eqn:Hb; simpl in *; [done|].
    rewrite IH by done. rewrite keep_step, <- app_assoc.
    by rewrite <- filter_app.
Qed.

(** The first exception ends the loop: what was appended before stays,
    the reference that raised and the ones after it add nothing. *)
Lemma for_each_raises pre b post e : ∀ acc,
  Forall (λ b, is_Some (Spec.returned (body b))) pre →
  body b = inl e →
  for_each body (pre ++ b :: post) acc
  = (acc ++ filter Spec.emitted (omap (λ b, Spec.returned (body b)) pre), Some e).
Proof.
  induction pre as [|p pre IH]; intros acc Hok Hb; simpl.
  - by rewrite Hb, filter_nil, app_nil_r.
  - inversion Hok as [|? ? [c Hc] Hrest]; subst.
    destruct (body p) as [e'|c'] eqn:Hp; simpl in *; [done|].
    rewrite IH by done. rewrite keep_step, <- app_assoc.
    by rewrite <- filter_app.
Qed.
End LoopFacts.

Lemma omap_returned_inr (bs : list Element) :
  omap (λ b, Spec.returned (inr (citation_of b) : exn + Citation)) bs
  = citation_of <$> bs.
Proof. induction bs as [|b bs IH]; [done|]. cbn. by f_equal. Qed.

(** C3: the sequence returned for a document is the sequence of the records
    of its references, in document order, restricted to those with a
    non-empty title or a non-empty list of authors: a reference contributes
    its record if and only if one of the two is non-empty. *)
Theorem emitted_iff_title_or_authors (root : Element) :
  parse_citations_from_xml (inr root)
  = filter Spec.emitted (citation_of <$> findall_desc (tei "biblStruct") root).
Proof.
  unfold parse_citations_from_xml, parse_citations_with.
  rewrite for_each_returns.
  - simpl. by rewrite omap_returned_inr.
  - apply Forall_forall. intros b _. by eexists.
Qed.

(** C1, as the code has it: when the body of the loop raises on a
    reference, the loop ends there.  The sequence returned holds the
    records of the references before that one, and nothing for the
    reference that raised nor for those after it. *)
Theorem exception_ends_the_document
  (body : Element → exn + Citation) (root : Element)
  (pre post : list Element) (b : Element) (e : exn) :
  findall_desc (tei "biblStruct") root = pre ++ b :: post →
  Forall (λ x, is_Some (Spec.returned (body x))) pre →
  body b = inl e →
  parse_citations_with body (inr root)
  = filter Spec.emitted (omap (λ x, Spec.returned (body x)) pre).
Proof.
  intros Hfrag Hpre Hb. unfold parse_citations_with.
  rewrite Hfrag, (for_each_raises body pre b post e) by done. done.
Qed.

Lemma exception_ends_the_document_witness :
  parse_citations_with Samples.raising_on_b1 (inr Samples.three_references)
  = filter Spec.emitted
      (omap (λ x, Spec.returned (Samples.raising_on_b1 x)) [Samples.attention]).
Proof.
  apply (exception_ends_the_document Samples.raising_on_b1 Samples.three_references
           [Samples.attention] [Samples.journal] Samples.book OtherException).
  - vm_compute. reflexivity.
  - repeat constructor. vm_compute. by eexists.
  - vm_compute. reflexivity.
Defined.

(** C1, as stated, fails: in a document of three references where the
    body raises on the second, the third reference is resolved without
    error and its record is worth keeping, yet the sequence returned holds
    the first record only. *)
Lemma later_references_are_lost :
  findall_desc (tei "biblStruct") Samples.three_references
  = [Samples.attention; Samples.book; Samples.journal]
  ∧ Samples.raising_on_b1 Samples.book = inl OtherException
  ∧ Samples.raising_on_b1 Samples.journal = inr (citation_of Samples.journal)
  ∧ Spec.emitted (citation_of Samples.journal)
  ∧ parse_citations_with Samples.raising_on_b1 (inr Samples.three_references)
    = [citation_of Samples.attention]
  ∧ citation_of Samples.journal
    ∉ parse_citations_with Samples.raising_on_b1 (inr Samples.three_references).
Proof.
  split; [vm_compute; reflexivity|]. split; [vm_compute; reflexivity|].
  split; [vm_compute; reflexivity|].
  split; [apply worth_keeping_emitted; vm_compute; reflexivity|].
  split; [vm_compute; reflexivity|].
  intros Hin. apply list_elem_of_In in Hin. vm_compute in Hin.
  destruct Hin as [Heq|[]]. discriminate Heq.
Qed.

(** *** Authors *)

#[local] Arguments extract_text : simpl never.
#[local] Arguments extract_all_text : simpl never.

Lemma fold_add_forename (l : list Element) : ∀ acc,
  fold_left add_forename l acc
  = acc ++ filter (λ t, t ≠ "") (omap (λ f, extract_text (Some f)) l).
Proof.
  induction l as [|f l IH]; intros acc; simpl.
  - by rewrite filter_nil, app_nil_r.
  - rewrite IH. unfold add_forename.
    destruct (extract_text (Some f)) as [t|]; [|done].
    destruct (Py.truthy t) eqn:Ht.
    + rewrite filter_cons_True by (by apply truthy_nonempty).
      by rewrite <- app_assoc.
    + rewrite filter_cons_False; [done|].
      apply truthy_empty in Ht. by intros [].
Qed.

Lemma collect_forenames_given pers_name :
  collect_forenames pers_name = Spec.given_names pers_name.
Proof. unfold collect_forenames. by rewrite fold_add_forename. Qed.

Lemma add_author_entry (acc : list string) (author : Element) :
  add_author acc author = acc ++ option_list (Spec.author_entry author).
Proof.
  unfold add_author, Spec.author_entry.
  destruct (find_desc (tei "persName") author) as [p|]; simpl;
    [|by rewrite app_nil_r].
  rewrite collect_forenames_given. unfold Spec.family_name.
  destruct (extract_text (find_child (tei "surname") p)) as [s|]; simpl.
  - destruct s as [|a s]; simpl.
    + rewrite andb_false_r.
      destruct (Spec.given_names p); simpl; by rewrite app_nil_r.
    + rewrite andb_true_r. destruct (Spec.given_names p); done.
  - destruct (Spec.given_names p); simpl; by rewrite app_nil_r.
Qed.

Lemma fold_add_author (l : list Element) : ∀ acc,
  fold_left add_author l acc = acc ++ omap Spec.author_entry l.
Proof.
  induction l as [|a l IH]; intros acc; simpl.
  - by rewrite app_nil_r.
  - rewrite IH, add_author_entry, <- app_assoc.
    by destruct (Spec.author_entry a).
Qed.

Lemma authors_of_citation (b : Element) :
  authors (citation_of b)
  = from_option (λ analytic, omap Spec.author_entry
                               (findall_desc (tei "author") analytic))
                [] (find_desc (tei "analytic") b).
Proof.
  unfold citation_of.
  destruct (year_block_keeps b
    (proceedings_block b (monogr_title_block b (analytic_block b empty_citation))))
    as (_ & -> & _).
  rewrite proceedings_block_authors, monogr_title_block_authors.
  unfold analytic_block.
  destruct (find_desc (tei "analytic") b) as [a|]; simpl; [|done].
  rewrite fold_add_author.
  by destruct (or_else _ _).
Qed.


(** C10: an [author] whose personal name has no family name (no [surname]
    child, or one without text) adds no entry to the authors, whatever
    given names it has. *)
Theorem given_names_alone_give_no_entry
  (acc : list string) (author pers_name : Element) :
  find_desc (tei "persName") author = Some pers_name →
  truthy_opt (extract_text (find_child (tei "surname") pers_name)) = false →
  add_author acc author = acc.
Proof.
  intros Hp Hs. unfold add_author. rewrite Hp.
  destruct (extract_text (find_child (tei "surname") pers_name)) as [s|]; [|done].
  simpl in Hs. by rewrite Hs, andb_false_r.
Qed.

Lemma given_names_alone_give_no_entry_witness :
  Spec.given_names
    (Samples.el "persName" [] None
       [Samples.el "forename" [("type", "first")] (Some "Aristotle") []])
  = ["Aristotle"]
  ∧ add_author ["Plato"] Samples.mononym = ["Plato"].
Proof.
  split; [vm_compute; reflexivity|].
  apply (given_names_alone_give_no_entry ["Plato"] Samples.mononym
           (Samples.el "persName" [] None
              [Samples.el "forename" [("type", "first")] (Some "Aristotle") []])).
  - vm_compute. reflexivity.
  - vm_compute. reflexivity.
Defined.

(** *** Title *)

Lemma first_success_or_else {A} (a b : option A) :
  Spec.first_success [a; b] = or_else a b.
Proof. destruct a, b; done. Qed.

Lemma title_after_analytic (b : Element) :
  title (analytic_block b empty_citation) = Spec.analytic_title b.
Proof.
  unfold analytic_block, Spec.analytic_title, Spec.analytic_main,
    Spec.analytic_article.
  destruct (find_desc (tei "analytic") b) as [a|]; simpl; [|done].
  destruct (find_desc_attr (tei "title") "type" "main" a) as [m|]; simpl; [done|].
  destruct (find_desc_attr (tei "title") "level" "a" a) as [m|]; done.
Qed.

Lemma title_after_monogr (b : Element) (c : Citation) :
  title (monogr_title_block b c)
  = if truthy_opt (title c) then title c
    else Spec.first_success [Spec.monogr_title b; title c].
Proof.
  unfold monogr_title_block, Spec.monogr_title, Spec.monogr_main, Spec.monogr_level.
  destruct (truthy_opt (title c)); simpl; [done|].
  destruct (find_desc (tei "monogr") b) as [m|]; simpl;
    [|by destruct (title c)].
  destruct (find_desc_attr (tei "title") "type" "main" m) as [e|]; simpl; [done|].
  destruct (find_desc_attr (tei "title") "level" "m" m) as [e|]; simpl; [done|].
  by destruct (title c).
Qed.

Lemma title_of_citation (b : Element) :
  title (citation_of b) = Spec.title_with_retry b.
Proof.
  unfold citation_of.
  destruct (year_block_keeps b
    (proceedings_block b (monogr_title_block b (analytic_block b empty_citation))))
    as (-> & _).
  rewrite proceedings_block_title, title_after_monogr, title_after_analytic.
  unfold Spec.title_with_retry.
  destruct (Spec.analytic_title b) as [t|]; simpl.
  - destruct (decide (t = "")) as [->|Hne]; simpl; [done|].
    apply truthy_nonempty in Hne. by rewrite Hne.
  - by destruct (Spec.monogr_title b).
Qed.

(** C5, as the code has it: the title is the text of the analytic title
    (typed main, else at article level) when that text is not empty;
    otherwise the text of the monogr title (typed main, else at monograph
    level) when there is one; otherwise the empty analytic text, or nothing.
    With a main-typed analytic title that has text, the title is that text,
    whatever other titles there are.  The text of a title is the trimmed
    concatenation of the text of the element and of all its descendants. *)
Theorem title_resolution (b : Element) :
  title (citation_of b)
  = match Spec.analytic_title b with
    | Some t =>
        if decide (t = "") then Spec.first_success [Spec.monogr_title b; Some t]
        else Some t
    | None => Spec.monogr_title b
    end
  ∧ Spec.analytic_title b
    = (λ e, Py.strip (Py.concat (itertext e)))
        <$> Spec.first_success [Spec.analytic_main b; Spec.analytic_article b]
  ∧ Spec.monogr_title b
    = (λ e, Py.strip (Py.concat (itertext e)))
        <$> Spec.first_success [Spec.monogr_main b; Spec.monogr_level b]
  ∧ (∀ main, Spec.analytic_main b = Some main →
             Spec.full_text main ≠ "" →
             title (citation_of b) = Some (Spec.full_text main)).
Proof.
  split; [apply title_of_citation|]. split; [done|]. split; [done|].
  intros main Hmain Htext. rewrite title_of_citation.
  unfold Spec.title_with_retry, Spec.analytic_title. rewrite Hmain. simpl.
  by case_decide.
Qed.

(** C5, as stated, fails: this reference has an analytic title typed main
    and an analytic title at article level, and its title is resolved to
    neither of them but to the title of the monogr section, although the
    chain of the four rules stops at the main-typed analytic title. *)
Lemma blank_analytic_title_does_not_stop :
  (∃ main article,
      Spec.analytic_main Samples.blank_main_title = Some main
      ∧ Spec.analytic_article Samples.blank_main_title = Some article
      ∧ Spec.full_text main = ""
      ∧ Spec.full_text article = "Real")
  ∧ Spec.title_chain Samples.blank_main_title = Some ""
  ∧ title (citation_of Samples.blank_main_title) = Some "Book"
  ∧ title (citation_of Samples.blank_main_title)
    ≠ Spec.title_chain Samples.blank_main_title.
Proof.
  split.
  { eexists _, _. repeat split; vm_compute; reflexivity. }
  split; [vm_compute; reflexivity|]. split; [vm_compute; reflexivity|].
  vm_compute. discriminate.
Qed.

(** *** Venue *)

Lemma venue_meeting_nonempty monogr t :
  Spec.venue_meeting monogr = Some t → Py.truthy t = true.
Proof.
  unfold Spec.venue_meeting.
  destruct (extract_text _) as [s|]; simpl; [|done].
  destruct (decide (s = "")) as [|Hne]; [done|].
  intros [= <-]. by apply truthy_nonempty.
Qed.

Lemma meeting_step (monogr : Element) (c : Citation) :
  match find_child (tei "meeting") monogr with
  | Some meeting_elem =>
      match extract_text (Some meeting_elem) with
      | Some meeting_text =>
          if Py.truthy meeting_text
          then set_proceedings (Some meeting_text) c
          else c
      | None => c
      end
  | None => c
  end
  = from_option (λ t, set_proceedings (Some t) c) c (Spec.venue_meeting monogr).
Proof.
  unfold Spec.venue_meeting.
  destruct (find_child (tei "meeting") monogr) as [meeting|]; [|done].
  destruct (extract_text (Some meeting)) as [t|]; simpl; [|done].
  destruct (decide (t = "")) as [->|Hne]; simpl; [done|].
  apply truthy_nonempty in Hne. by rewrite Hne.
Qed.

Lemma proceedings_of_block (b : Element) (c : Citation) :
  proceedings c = None →
  proceedings (proceedings_block b c) = Spec.venue_chain (title c) b.
Proof.
  intros Hnone. unfold proceedings_block, Spec.venue_chain.
  destruct (find_desc (tei "monogr") b) as [monogr|]; [|done].
  cbv zeta. rewrite meeting_step.
  change (Some monogr ≫= _) with
    (Spec.first_success [Spec.venue_meeting monogr; Spec.venue_journal monogr;
                         Spec.venue_monograph (title c) monogr]).
  destruct (Spec.venue_meeting monogr) as [t|] eqn:Hm; simpl.
  - by rewrite (venue_meeting_nonempty _ _ Hm).
  - rewrite Hnone. simpl.
    unfold Spec.venue_journal, Spec.venue_monograph.
    destruct (find_desc_attr (tei "title") "level" "j" monogr) as [j|]; simpl;
      [done|].
    destruct (find_desc_attr (tei "title") "level" "m" monogr) as [m|]; simpl;
      [|done].
    unfold extract_all_text. fold (Spec.full_text m).
    destruct (decide (Spec.full_text m = "")) as [->|Hne]; simpl; [done|].
    apply truthy_nonempty in Hne. rewrite Hne. simpl.
    case_bool_decide; case_decide; done.
Qed.

Lemma proceedings_of_citation (b : Element) :
  proceedings (citation_of b) = Spec.venue_chain (title (citation_of b)) b.
Proof.
  unfold citation_of.
  destruct (year_block_keeps b
    (proceedings_block b (monogr_title_block b (analytic_block b empty_citation))))
    as (-> & _ & ->).
  rewrite proceedings_block_title. apply proceedings_of_block.
  by rewrite monogr_title_block_proceedings, analytic_block_proceedings.
Qed.

(** C4, as the code has it: the venue comes from the first monogr section
    by three rules in order, each with a test of its own.  (a) The trimmed
    text of the meeting element decides when it is not empty.  (b)
    Otherwise a title at journal level decides as soon as the element is
    there: the venue is its full text, even when that text is empty, and
    rule (c) is not tried.  (c) Otherwise, without a title at journal
    level, the full text of a title at monograph level is the venue when
    it is not empty and differs from the resolved title.  Without a monogr
    section, or when no rule decides, the venue is absent. *)
Theorem venue_resolution (b : Element) :
  proceedings (citation_of b)
  = find_desc (tei "monogr") b
      ≫= (λ monogr,
           Spec.first_success
             [ Spec.venue_meeting monogr;
               Spec.venue_journal monogr;
               Spec.venue_monograph (title (citation_of b)) monogr ])
  ∧ (∀ monogr,
       Spec.venue_meeting monogr
       = extract_text (find_child (tei "meeting") monogr)
           ≫= λ t, if decide (t = "") then None else Some t)
  ∧ (∀ monogr,
       Spec.venue_journal monogr
       = (λ e, Py.strip (Py.concat (itertext e)))
           <$> find_desc_attr (tei "title") "level" "j" monogr)
  ∧ (∀ monogr,
       Spec.venue_monograph (title (citation_of b)) monogr
       = ((λ e, Py.strip (Py.concat (itertext e)))
            <$> find_desc_attr (tei "title") "level" "m" monogr)
           ≫= λ t, if decide (t = "") then None
                   else if decide (Some t = title (citation_of b)) then None
                   else Some t)
  ∧ (∀ monogr j,
       find_desc (tei "monogr") b = Some monogr →
       Spec.venue_meeting monogr = None →
       find_desc_attr (tei "title") "level" "j" monogr = Some j →
       proceedings (citation_of b) = Some (Py.strip (Py.concat (itertext j)))).
Proof.
  split; [apply proceedings_of_citation|]. do 3 (split; [done|]).
  intros monogr j Hmonogr Hmeeting Hjournal.
  rewrite proceedings_of_citation. unfold Spec.venue_chain.
  rewrite Hmonogr. cbn [mbind option_bind Spec.first_success].
  rewrite Hmeeting. unfold Spec.venue_journal. by rewrite Hjournal.
Qed.

(** C4, as stated, fails, whichever test of success the three rules
    share.  If a rule succeeds when its element is there, the first
    reference stops at its meeting element, which holds an address and no
    name; yet its venue is the journal title.  If a rule succeeds when it
    yields a text, the second reference passes its empty journal title and
    takes the title at monograph level; yet its venue is the empty text
    of the journal title. *)
Lemma venue_rules_share_no_test :
  (∃ monogr meeting,
      find_desc (tei "monogr") MoreSamples.meeting_without_name = Some monogr
      ∧ find_child (tei "meeting") monogr = Some meeting
      ∧ extract_text (Some meeting) = None)
  ∧ (∃ monogr journal_title proc_title,
      find_desc (tei "monogr") MoreSamples.journal_title_without_text = Some monogr
      ∧ find_desc_attr (tei "title") "level" "j" monogr = Some journal_title
      ∧ Spec.full_text journal_title = ""
      ∧ find_desc_attr (tei "title") "level" "m" monogr = Some proc_title
      ∧ Spec.full_text proc_title = "Proc")
  ∧ proceedings (citation_of MoreSamples.meeting_without_name) = Some "Journal"
  ∧ Spec.venue_by_element (title (citation_of MoreSamples.meeting_without_name))
      MoreSamples.meeting_without_name = Some ""
  ∧ proceedings (citation_of MoreSamples.journal_title_without_text) = Some ""
  ∧ Spec.venue_by_text (title (citation_of MoreSamples.journal_title_without_text))
      MoreSamples.journal_title_without_text = Some "Proc"
  ∧ proceedings (citation_of MoreSamples.meeting_without_name)
    ≠ Spec.venue_by_element (title (citation_of MoreSamples.meeting_without_name))
        MoreSamples.meeting_without_name
  ∧ proceedings (citation_of MoreSamples.journal_title_without_text)
    ≠ Spec.venue_by_text (title (citation_of MoreSamples.journal_title_without_text))
        MoreSamples.journal_title_without_text.
Proof.
  split; [eexists _, _; repeat split; vm_compute; reflexivity|].
  split; [eexists _, _, _; repeat split; vm_compute; reflexivity|].
  repeat split; vm_compute; (reflexivity || discriminate).
Qed.

(** C2, as the code has it: when the venue is taken from a title at
    monograph level (the meeting gives no text and there is no title at
    journal level), it is never equal to the title of the record; when the
    text of that title equals the resolved title, the venue is absent. *)
Theorem monograph_venue_differs_from_title (b monogr : Element) :
  find_desc (tei "monogr") b = Some monogr →
  Spec.venue_meeting monogr = None →
  Spec.venue_journal monogr = None →
  (proceedings (citation_of b) ≠ None →
   proceedings (citation_of b) ≠ title (citation_of b)
   ∧ proceedings (citation_of b)
     = Spec.full_text <$> find_desc_attr (tei "title") "level" "m" monogr)
  ∧ (∀ m, find_desc_attr (tei "title") "level" "m" monogr = Some m →
          Some (Spec.full_text m) = title (citation_of b) →
          proceedings (citation_of b) = None).
Proof.
  intros Hmonogr Hmeeting Hjournal.
  rewrite proceedings_of_citation. unfold Spec.venue_chain.
  rewrite Hmonogr. simpl. rewrite Hmeeting, Hjournal.
  unfold Spec.venue_monograph. split.
  - destruct (find_desc_attr (tei "title") "level" "m" monogr) as [m|]; simpl;
      [|done].
    repeat case_decide; simpl; done.
  - intros m -> Heq. simpl. repeat case_decide; done.
Qed.

Lemma monograph_venue_differs_from_title_witness :
  (proceedings (citation_of Samples.chapter) ≠ None →
   proceedings (citation_of Samples.chapter) ≠ title (citation_of Samples.chapter)
   ∧ proceedings (citation_of Samples.chapter)
     = Spec.full_text
         <$> find_desc_attr (tei "title") "level" "m"
               (Samples.el "monogr" [] None
                  [Samples.el "title" [("level", "m")]
                              (Some "Handbook of Algorithms") []]))
  ∧ (∀ m, find_desc_attr (tei "title") "level" "m"
            (Samples.el "monogr" [] None
               [Samples.el "title" [("level", "m")]
                           (Some "Handbook of Algorithms") []]) = Some m →
          Some (Spec.full_text m) = title (citation_of Samples.chapter) →
          proceedings (citation_of Samples.chapter) = None).
Proof.
  apply (monograph_venue_differs_from_title Samples.chapter
           (Samples.el "monogr" [] None
              [Samples.el "title" [("level", "m")] (Some "Handbook of Algorithms") []])).
  - vm_compute. reflexivity.
  - vm_compute. reflexivity.
  - vm_compute. reflexivity.
Defined.

(** The venue of the chapter is the title of the book it is in, and a
    book on its own has no venue. *)
Example chapter_record :
  citation_of Samples.chapter
  = mkCitation (Some "Sorting") ["Donald E Knuth"]
               (Some "Handbook of Algorithms") None.
Proof. vm_compute. reflexivity. Qed.

(** C2, as stated, fails: for a reference to a journal as a whole, the
    title of the journal is both the title and the venue of the record. *)
Lemma journal_title_is_title_and_venue :
  title (citation_of Samples.journal) = Some "Nature"
  ∧ proceedings (citation_of Samples.journal) = Some "Nature"
  ∧ Spec.emitted (citation_of Samples.journal)
  ∧ ¬ (proceedings (citation_of Samples.journal) ≠ None
       → proceedings (citation_of Samples.journal)
         ≠ title (citation_of Samples.journal)).
Proof.
  split; [vm_compute; reflexivity|]. split; [vm_compute; reflexivity|].
  split; [apply worth_keeping_emitted; vm_compute; reflexivity|].
  intros H. apply H; vm_compute; [discriminate|reflexivity].
Qed.

(** *** Year *)

Lemma year_of_date (d : Element) (c : Citation) :
  year c = None →
  year (year_from_date d c)
  = Spec.first_success [Spec.attribute_year d; Spec.text_year d].
Proof.
  intros Hnone. unfold year_from_date, Spec.attribute_year, Spec.text_year.
  assert (Htext :
    year (match extract_text (Some d) with
          | Some date_text =>
              if Py.truthy date_text then
                match Py.search_year date_text with
                | Some year_match =>
                    match Py.int year_match with
                    | Some y => set_year (Some y) c
                    | None => c
                    end
                | None => c
                end
              else c
          | None => c
          end)
    = (extract_text (Some d) ≫= Py.search_year) ≫= Py.int).
  { destruct (extract_text (Some d)) as [t|]; simpl; [|done].
    destruct t as [|a t]; simpl; [done|].
    destruct (Py.search_year (String a t)) as [m|]; simpl; [|done].
    by destruct (Py.int m). }
  cbv zeta.
  destruct (get d "when") as [w|]; cbn [mbind option_bind Spec.first_success].
  - destruct w as [|a w]; cbn [Py.truthy].
    + rewrite Hnone, Htext. by destruct (_ ≫= _).
    + destruct (Py.int (Py.slice_to 4 (String a w))) as [y|]; [done|].
      rewrite Hnone, Htext. by destruct (_ ≫= _).
  - rewrite Hnone, Htext. by destruct (_ ≫= _).
Qed.

Lemma year_of_citation (b : Element) :
  year (citation_of b)
  = Spec.date_element b
      ≫= λ d, Spec.first_success [Spec.attribute_year d; Spec.text_year d].
Proof.
  unfold citation_of, year_block, Spec.date_element.
  set (c := proceedings_block b _).
  assert (Hc : year c = None).
  { subst c. by rewrite proceedings_block_year, monogr_title_block_year,
      analytic_block_year. }
  destruct (find_desc (tei "imprint") b) as [imprint|];
    cbn [mbind option_bind]; [|done].
  rewrite first_success_or_else.
  destruct (or_else _ _) as [d|]; cbn [mbind option_bind]; [|done].
  by apply year_of_date.
Qed.

(** *** The year in the text of a date *)

Lemma digit_is_word c : Py.isdigit c = true → Py.isword c = true.
Proof. unfold Py.isword, Py.isalnum. by intros ->. Qed.

Lemma year_digits_inv m :
  Spec.year_digits m →
  ∃ c1 c2 c3 c4,
    m = Spec.four_digits c1 c2 c3 c4
    ∧ ((Ascii.eqb c1 "1" && Ascii.eqb c2 "9") || (Ascii.eqb c1 "2" && Ascii.eqb c2 "0")) = true
    ∧ Py.isdigit c1 = true ∧ Py.isdigit c3 = true ∧ Py.isdigit c4 = true.
Proof.
  intros (c3 & c4 & [-> | ->] & H3 & H4).
  - by exists "1"%char, "9"%char, c3, c4.
  - by exists "2"%char, "0"%char, c3, c4.
Qed.

(** A match at the head of the text is a year that stands at offset 0 as a
    word of its own. *)
Lemma match_year_at_word prev s m :
  Py.match_year_at prev s = Some m ↔ Spec.year_word_from prev s 0 m.
Proof.
  unfold Spec.year_word_from. split.
  - destruct s as [|c1 [|c2 [|c3 [|c4 rest]]]]; simpl; try done.
    destruct (Py.boundary prev (Some c1)) eqn:Hb; simpl; [|done].
    destruct (_ || _) eqn:Hy; simpl; [|done].
    destruct (Py.isdigit c3) eqn:H3; simpl; [|done].
    destruct (Py.isdigit c4) eqn:H4; simpl; [|done].
    destruct (Py.boundary (Some c4) (Py.first_char rest)) eqn:Ha; [|done].
    intros [= <-].
    assert (H1 : Py.isword c1 = true).
    { apply digit_is_word.
      apply orb_true_iff in Hy as [Hy|Hy]; apply andb_true_iff in Hy as [Hy _];
        apply Ascii.eqb_eq in Hy; by subst. }
    split; [destruct rest; done|]. split.
    { exists c3, c4. split; [|done].
      apply orb_true_iff in Hy as [Hy|Hy]; apply andb_true_iff in Hy as [Ha1 Ha2];
        apply Ascii.eqb_eq in Ha1, Ha2; subst; auto. }
    unfold Py.boundary in Hb, Ha. simpl in Hb, Ha.
    rewrite H1 in Hb. rewrite (digit_is_word _ H4) in Ha.
    split.
    + by destruct (Py.word_at prev).
    + destruct rest; simpl in *; [done|]. by destruct (Py.isword _).
  - intros (Hsub & Hy & Hprev & Hnext).
    apply year_digits_inv in Hy as (c1 & c2 & c3 & c4 & -> & Hy & H1 & H3 & H4).
    destruct s as [|d1 [|d2 [|d3 [|d4 rest]]]]; simpl in Hsub; try done.
    assert (Hs : Spec.four_digits d1 d2 d3 d4 = Spec.four_digits c1 c2 c3 c4).
    { by destruct rest. }
    injection Hs as -> -> -> ->.
    simpl. unfold Py.boundary. simpl.
    rewrite Hprev, (digit_is_word _ H1), Hy, H3, H4, (digit_is_word _ H4).
    simpl in Hnext. destruct rest; simpl in *; [done|]. by rewrite Hnext.
Qed.

(** Moving one character on. *)
Lemma year_word_from_step prev c s i m :
  Spec.year_word_from prev (String c s) (S i) m
  ↔ Spec.year_word_from (Some c) s i m.
Proof.
  unfold Spec.year_word_from. simpl. by destruct i.
Qed.

Lemma no_year_word_in_empty prev i m : ¬ Spec.year_word_from prev "" i m.
Proof.
  intros (Hsub & Hy & _).
  apply year_digits_inv in Hy as (c1 & c2 & c3 & c4 & -> & _).
  by destruct i.
Qed.

(** The search returns the leftmost year that stands as a word of its
    own. *)
Lemma search_year_from_leftmost s : ∀ prev m,
  Py.search_year_from prev s = Some m
  ↔ ∃ i, Spec.year_word_from prev s i m
         ∧ ∀ j m', (j < i)%nat → ¬ Spec.year_word_from prev s j m'.
Proof.
  induction s as [|c s IH]; intros prev m.
  - simpl. split; [done|]. intros (i & Hw & _). by apply no_year_word_in_empty in Hw.
  - cbn [Py.search_year_from].
    destruct (Py.match_year_at prev (String c s)) as [m0|] eqn:Hm.
    + split.
      * intros [= <-]. exists 0%nat. split; [by apply match_year_at_word|].
        intros j m' Hj. lia.
      * intros ([|i] & Hw & Hmin).
        -- apply match_year_at_word in Hw. congruence.
        -- exfalso. apply (Hmin 0%nat m0); [lia|]. by apply match_year_at_word.
    + rewrite IH. split.
      * intros (i & Hw & Hmin). exists (S i). split.
        -- by apply year_word_from_step.
        -- intros [|j] m' Hj Hw'.
           ++ apply match_year_at_word in Hw'. congruence.
           ++ apply year_word_from_step in Hw'. apply (Hmin j m'); [lia|done].
      * intros ([|i] & Hw & Hmin).
        -- apply match_year_at_word in Hw. congruence.
        -- exists i. split; [by apply year_word_from_step|].
           intros j m' Hj Hw'. apply (Hmin (S j) m'); [lia|].
           by apply year_word_from_step.
Qed.

Lemma search_year_leftmost t m :
  Py.search_year t = Some m ↔ Spec.first_year_word t m.
Proof. apply search_year_from_leftmost. Qed.

(** The match reads as a year between 1900 and 2099. *)
Lemma year_digits_int m :
  Spec.year_digits m → ∃ y, Py.int m = Some y ∧ 1900 ≤ y ≤ 2099.
Proof.
  intros (c3 & c4 & Hm & H3 & H4).
  assert (Hd : ∀ c, Py.isdigit c = true → 0 ≤ Py.digit_value c ≤ 9).
  { intros c Hc. unfold Py.isdigit, Py.between, Py.digit_value in *.
    apply andb_true_iff in Hc as [Hlo Hhi].
    apply N.leb_le in Hlo, Hhi. lia. }
  assert (Hs : ∀ c, Py.isdigit c = true → Py.int_space c = false).
  { intros [[] [] [] [] [] [] [] []]; vm_compute; congruence. }
  pose proof (Hd _ H3). pose proof (Hd _ H4).
  destruct Hm as [-> | ->]; unfold Py.int, Py.strip_with, Spec.four_digits;
    simpl; rewrite (Hs _ H3), (Hs _ H4); simpl; rewrite H3, H4; simpl;
    eexists; (split; [reflexivity|]);
    change (Py.digit_value "1") with 1; change (Py.digit_value "9") with 9;
    change (Py.digit_value "2") with 2; change (Py.digit_value "0") with 0; lia.
Qed.

(** C6, as the code has it: the year comes from the date element of the
    imprint (the one marked as published, else any).  The leading four
    characters of its [when] attribute are read as an integer first; only
    when there is no attribute or they do not read as one, the year is
    looked for in the trimmed text that precedes the first child of the
    element, as the leftmost four-digit sequence that begins with 19 or 20
    and stands as a word of its own (no letter, digit or underscore next to
    it).  When both give a year the attribute decides; when neither does,
    the year is absent. *)
Theorem year_resolution (b : Element) :
  year (citation_of b)
  = Spec.date_element b
      ≫= (λ d, Spec.first_success [Spec.attribute_year d; Spec.text_year d])
  ∧ (∀ d y,
       Spec.text_year d = Some y
       ↔ ∃ t m, extract_text (Some d) = Some t
                ∧ Spec.first_year_word t m ∧ Py.int m = Some y).
Proof.
  split; [apply year_of_citation|].
  intros d y. unfold Spec.text_year. split.
  - destruct (extract_text (Some d)) as [t|]; simpl; [|done].
    destruct (Py.search_year t) as [m|] eqn:Hm; simpl; [|done].
    intros Hy. exists t, m. by rewrite <- search_year_leftmost.
  - intros (t & m & -> & Hm & Hy). simpl.
    apply search_year_leftmost in Hm. by rewrite Hm.
Qed.

(** C6, as stated, fails: the date element of this reference has no
    [when] attribute and its text holds the four-digit sequence 2019, yet
    the year of the record is absent, because the sequence touches a
    letter. *)
Lemma copyright_year_is_not_read :
  Spec.date_element (Samples.dated Samples.copyright_date)
  = Some Samples.copyright_date
  ∧ get Samples.copyright_date "when" = None
  ∧ extract_text (Some Samples.copyright_date) = Some "c2019"
  ∧ Spec.first_year_digits "c2019" = Some "2019"
  ∧ Py.int "2019" = Some 2019
  ∧ year (citation_of (Samples.dated Samples.copyright_date)) = None
  ∧ year (citation_of (Samples.dated Samples.copyright_date))
    ≠ Spec.first_year_digits "c2019" ≫= Py.int.
Proof.
  repeat split; try (vm_compute; reflexivity). vm_compute. discriminate.
Qed.

(** C7: the code reads the leading four characters of the [when]
    attribute with [int], which also accepts a sign and fewer than four
    characters.  The year 500 BCE, written [-0500], gives the year -50, and
    the attribute [17] gives the year 17 although the text of the element
    holds 2017. *)
Theorem year_outside_four_digits :
  year (citation_of (Samples.dated Samples.bce_date)) = Some (-50)
  ∧ year (citation_of (Samples.dated Samples.short_date)) = Some 17
  ∧ worth_keeping (citation_of (Samples.dated Samples.bce_date)) = true
  ∧ parse_citations_from_xml
      (inr (Samples.el "TEI" [] None [Samples.dated Samples.bce_date]))
    = [mkCitation (Some "T") [] None (Some (-50))].
Proof. repeat split; vm_compute; reflexivity. Qed.

(** The year the text can give: from 1900 to 2099. *)
Lemma text_year_range d y : Spec.text_year d = Some y → 1900 ≤ y ≤ 2099.
Proof.
  unfold Spec.text_year.
  destruct (extract_text (Some d)) as [t|]; simpl; [|done].
  destruct (Py.search_year t) as [m|] eqn:Hm; simpl; [|done].
  apply search_year_leftmost in Hm as (i & (_ & Hy & _) & _).
  destruct (year_digits_int m Hy) as (y' & Hy' & Hrange).
  rewrite Hy'. by intros [= <-].
Qed.

(** *** The year in the attribute of a date *)

Lemma lstrip_with_length sp s :
  (String.length (Py.lstrip_with sp s) ≤ String.length s)%nat.
Proof. induction s as [|c s IH]; simpl; [done|]. destruct (sp c); simpl; lia. Qed.

Lemma rstrip_with_length sp s :
  (String.length (Py.rstrip_with sp s) ≤ String.length s)%nat.
Proof.
  induction s as [|c s IH]; simpl; [done|].
  destruct (sp c && negb (Py.truthy (Py.rstrip_with sp s))); simpl; lia.
Qed.

Lemma strip_with_length sp s :
  (String.length (Py.strip_with sp s) ≤ String.length s)%nat.
Proof.
  unfold Py.strip_with.
  pose proof (rstrip_with_length sp (Py.lstrip_with sp s)).
  pose proof (lstrip_with_length sp s). lia.
Qed.

Lemma slice_to_length n s : (String.length (Py.slice_to n s) ≤ n)%nat.
Proof.
  revert s. induction n as [|n IH]; intros [|c s]; simpl; try lia.
  specialize (IH s). lia.
Qed.

Lemma digit_value_range c : Py.isdigit c = true → 0 ≤ Py.digit_value c ≤ 9.
Proof.
  unfold Py.isdigit, Py.between, Py.digit_value. intros Hc.
  apply andb_true_iff in Hc as [Hlo Hhi]. apply N.leb_le in Hlo, Hhi. lia.
Qed.

Lemma int_digits_bound s : ∀ bar acc v,
  0 ≤ acc → Py.int_digits bar acc s = Some v →
  0 ≤ v < (acc + 1) * 10 ^ Z.of_nat (String.length s).
Proof.
  induction s as [|c s IH]; intros bar acc v Hacc; simpl String.length.
  - simpl. destruct bar; [done|]. intros [= <-]. lia.
  - rewrite Nat2Z.inj_succ, Z.pow_succ_r by lia.
    assert (Hpow : 0 < 10 ^ Z.of_nat (String.length s)) by (apply Z.pow_pos_nonneg; lia).
    cbn [Py.int_digits].
    destruct (Py.isdigit c) eqn:Hc.
    + pose proof (digit_value_range c Hc).
      intros Hv. apply IH in Hv; [|lia]. nia.
    + destruct (Py.code c =? 95)%N; [|done].
      destruct bar; [done|]. intros Hv. apply IH in Hv; [|lia]. nia.
Qed.

Lemma int_bound s v :
  Py.int s = Some v →
  - 10 ^ Z.of_nat (String.length s - 1) < v < 10 ^ Z.of_nat (String.length s).
Proof.
  unfold Py.int. pose proof (strip_with_length Py.int_space s) as Hlen.
  destruct (Py.strip_with Py.int_space s) as [|c t]; [done|].
  simpl String.length in Hlen.
  assert (Hmono : 10 ^ Z.of_nat (String.length t)
                  ≤ 10 ^ Z.of_nat (String.length s - 1)).
  { apply Z.pow_le_mono_r; lia. }
  assert (Hmono' : 10 ^ Z.of_nat (String.length s - 1)
                   ≤ 10 ^ Z.of_nat (String.length s)).
  { apply Z.pow_le_mono_r; lia. }
  assert (Hpos : 0 < 10 ^ Z.of_nat (String.length s - 1))
    by (apply Z.pow_pos_nonneg; lia).
  destruct (Ascii.eqb c "-").
  - destruct (Py.int_digits true 0 t) as [w|] eqn:Hw; [|done].
    intros [= <-]. apply int_digits_bound in Hw; [|lia]. lia.
  - destruct (Ascii.eqb c "+").
    + intros Hw. apply int_digits_bound in Hw; [|lia]. lia.
    + intros Hw. apply int_digits_bound in Hw; [|lia].
      simpl String.length in Hw.
      assert (10 ^ Z.of_nat (S (String.length t))
              ≤ 10 ^ Z.of_nat (String.length s)) by (apply Z.pow_le_mono_r; lia).
      lia.
Qed.

(** The year the attribute can give: an integer written with at most four
    characters, sign included. *)
Lemma attribute_year_range d y :
  Spec.attribute_year d = Some y → -999 ≤ y ≤ 9999.
Proof.
  unfold Spec.attribute_year.
  destruct (get d "when") as [w|]; cbn [mbind option_bind]; [|done].
  intros Hy. apply int_bound in Hy.
  pose proof (slice_to_length 4 w) as Hlen.
  assert (10 ^ Z.of_nat (String.length (Py.slice_to 4 w)) ≤ 10 ^ 4)
    by (apply Z.pow_le_mono_r; lia).
  assert (10 ^ Z.of_nat (String.length (Py.slice_to 4 w) - 1) ≤ 10 ^ 3)
    by (apply Z.pow_le_mono_r; lia).
  change (10 ^ 4) with 10000 in *. change (10 ^ 3) with 1000 in *. lia.
Qed.

(** The scenarios of the specification. *)
Example attention_record :
  citation_of Samples.attention
  = mkCitation (Some "Attention Is All You Need")
               ["Ashish Vaswani"; "Noam Shazeer"] (Some "NeurIPS") (Some 2017).
Proof. vm_compute. reflexivity. Qed.

Example book_record :
  citation_of Samples.book
  = mkCitation (Some "The Art of Computer Programming") [] None (Some 2021).
Proof. vm_compute. reflexivity. Qed.

Example attribute_decides :
  year (citation_of (Samples.dated Samples.disagreeing_date)) = Some 2017.
Proof. vm_compute. reflexivity. Qed.

(** How the library functions read a document. *)
Example int_samples :
  map Py.int ["12"; "-050"; "+1_2"; "1__2"; "_12"; "12_"; " 12 "; "- 12"; "+-1";
              ""; "-"; "+"; "0x1"; "0000"; "-0"; "1 2"; "1_2_"; "2017"]
  = [Some 12; Some (-50); Some 12; None; None; None; Some 12; None; None;
     None; None; None; None; Some 0; Some 0; None; None; Some 2017].
Proof. vm_compute. reflexivity. Qed.

Example search_year_samples :
  map Py.search_year ["c2019"; "2019"; "12019"; "20195"; "In press, 2021";
                      "x 1999 2001"; "1999_"; "1899 2100 2000"]
  = [None; Some "2019"; None; None; Some "2021"; Some "1999"; None; Some "2000"].
Proof. vm_compute. reflexivity. Qed.

Example text_with_markup :
  itertext Samples.marked_up_title = [" Bo"; "o"; "k "]
  ∧ extract_all_text (Some Samples.marked_up_title) = "Book"
  ∧ extract_text (Some Samples.marked_up_title) = Some "Bo".
Proof. repeat split; vm_compute; reflexivity. Qed.

Example references_in_document_order :
  (λ b, get b "xml:id") <$> findall_desc (tei "biblStruct") Samples.nested_references
  = [Some "outer"; Some "inner"; Some "last"].
Proof. vm_compute. reflexivity. Qed.

(** ** The JSON file read back *)

#[local] Arguments String.append !_ _ / : simpl nomatch.

Section StringFacts.

Lemma append_assoc (a b c : string) : (a +:+ b) +:+ c = a +:+ (b +:+ c).
Proof. induction a as [|x a IH]; simpl; [done|]. by rewrite IH. Qed.

Lemma append_empty_r (a : string) : a +:+ "" = a.
Proof. induction a as [|x a IH]; simpl; [done|]. by rewrite IH. Qed.

Lemma length_append (a b : string) :
  String.length (a +:+ b) = (String.length a + String.length b)%nat.
Proof. induction a as [|x a IH]; simpl; [done|]. by rewrite IH. Qed.

End StringFacts.

(** Settles the comparisons of the goal that linear arithmetic decides. *)
Ltac settle_tests :=
  repeat match goal with
  | |- context [N.ltb ?a ?b] =>
      first [ replace (N.ltb a b) with true by (symmetry; apply N.ltb_lt; lia)
            | replace (N.ltb a b) with false by (symmetry; apply N.ltb_ge; lia) ]
  | |- context [N.leb ?a ?b] =>
      first [ replace (N.leb a b) with true by (symmetry; apply N.leb_le; lia)
            | replace (N.leb a b) with false by (symmetry; apply N.leb_gt; lia) ]
  end.


Section JsonFacts.
Import Json.
Local Open Scope N_scope.

(** *** Strings *)

Lemma scanstring_plain (c : N) (s : list N) :
  c ≠ dquote → c ≠ backslash → 32 ≤ c →
  scanstring (c :: s)
  = match scanstring s with
    | Some (t, r) => Some (c :: t, r)
    | None => None
    end.
Proof.
  intros H1 H2 H3. cbn [scanstring].
  apply N.eqb_neq in H1 as ->. apply N.eqb_neq in H2 as ->.
  by apply N.ltb_ge in H3 as ->.
Qed.

(** Reading the escape of one character gives the character back. *)
Lemma scanstring_escape_char (c : N) (s : list N) :
  scanstring (escape_char c ++ s)
  = match scanstring s with
    | Some (t, r) => Some (c :: t, r)
    | None => None
    end.
Proof.
  unfold escape_char.
  destruct (N.eqb_spec c dquote) as [->|H1]; [reflexivity|].
  destruct (N.eqb_spec c backslash) as [->|H2]; [reflexivity|].
  destruct (N.eqb_spec c 10) as [->|H3]; [reflexivity|].
  destruct (N.eqb_spec c 13) as [->|H4]; [reflexivity|].
  destruct (N.eqb_spec c 9) as [->|H5]; [reflexivity|].
  destruct (N.eqb_spec c 8) as [->|H6]; [reflexivity|].
  destruct (N.eqb_spec c 12) as [->|H7]; [reflexivity|].
  destruct (N.ltb_spec c 32) as [Hlt|Hge].
  - assert (Hc : c ∈ N.of_nat <$> seq 0 32).
    { apply list_elem_of_fmap. exists (N.to_nat c). split; [lia|].
      apply elem_of_seq. lia. }
    cbn in Hc. clear -Hc H3 H4 H5 H6 H7.
    repeat (apply elem_of_cons in Hc as [->|Hc]; [done || reflexivity|]).
    by apply elem_of_nil in Hc.
  - by apply scanstring_plain.
Qed.

Lemma scanstring_escape (s rest : list N) :
  scanstring (escape s ++ dquote :: rest) = Some (s, rest).
Proof.
  induction s as [|c s IH]; [done|].
  cbn [escape]. by rewrite <- app_assoc, scanstring_escape_char, IH.
Qed.

Lemma basestring_app (s rest : list N) :
  encode_basestring s ++ rest = dquote :: escape s ++ dquote :: rest.
Proof. unfold encode_basestring. cbn [app]. by rewrite <- app_assoc. Qed.

(** *** Integers *)

Lemma read_digits_stop (acc : Z) (rest : list N) :
  ends_number rest → read_digits acc rest = (acc, rest).
Proof. destruct rest as [|c r]; simpl; [done|]. by intros [-> _]. Qed.

Lemma read_digits_uint (d : Decimal.uint) : ∀ (acc : positive) (rest : list N),
  ends_number rest →
  read_digits (Z.pos acc) (code_points (NilEmpty.string_of_uint d) ++ rest)
  = (Z.pos (Pos.of_uint_acc d acc), rest).
Proof.
  induction d; intros acc rest Hrest;
    cbn [NilEmpty.string_of_uint code_points app];
    [by apply read_digits_stop|..];
    cbn [read_digits];
    match goal with
    | |- context [isdigit ?c] => change (isdigit c) with true
    end; cbv iota;
    match goal with
    | |- context [digit_value ?c] =>
        let v := eval vm_compute in (digit_value c) in
        change (digit_value c) with v
    end;
    simpl Pos.of_uint_acc;
    match goal with
    | |- read_digits ?z _ = (Z.pos (Pos.of_uint_acc _ ?p), _) =>
        replace z with (Z.pos p) by lia
    end; by apply IHd.
Qed.

Lemma to_uint_no_leading_zero (p : positive) (d : Decimal.uint) :
  Pos.to_uint p ≠ Decimal.D0 d.
Proof.
  intros Hd.
  pose proof (DecimalPos.Unsigned.of_to p) as Hof.
  pose proof (DecimalPos.Unsigned.to_of (Pos.to_uint p)) as Hto.
  rewrite Hof in Hto. simpl in Hto. rewrite Hd in Hto.
  rewrite DecimalFacts.unorm_D0 in Hto.
  unfold Decimal.unorm in Hto.
  destruct (Decimal.nzhead d) eqn:Hn; try discriminate Hto.
  - injection Hto as Hnil. subst d. rewrite Hd in Hof. discriminate Hof.
  - injection Hto as Hu. subst d. by apply DecimalFacts.nzhead_nonzero in Hn.
Qed.

Lemma match_natural_uint (p : positive) (rest : list N) :
  ends_number rest →
  (length (code_points (NilEmpty.string_of_uint (Pos.to_uint p)))
   ≤ max_str_digits)%nat →
  match_natural (code_points (NilEmpty.string_of_uint (Pos.to_uint p)) ++ rest)
  = Some (Z.pos p, rest).
Proof.
  intros Hrest Hdigits.
  pose proof (DecimalPos.Unsigned.of_to p) as Hof.
  pose proof (to_uint_no_leading_zero p) as Hz.
  destruct (Pos.to_uint p) as [|d|d|d|d|d|d|d|d|d|d]; simpl in Hof;
    try discriminate Hof; try (by destruct (Hz d));
    injection Hof as <-;
    cbn [NilEmpty.string_of_uint code_points app match_natural length]
      in Hdigits |- *;
    match goal with
    | |- context [?c =? ord "0"] => change (c =? ord "0") with false
    end;
    match goal with
    | |- context [isdigit ?c] => change (isdigit c) with true
    end; cbv iota;
    match goal with
    | |- context [digit_value ?c] =>
        let v := eval vm_compute in (digit_value c) in
        change (digit_value c) with v
    end;
    rewrite read_digits_uint by done;
    rewrite length_app;
    (destruct (Nat.ltb_spec max_str_digits
                 (S (length (code_points (NilEmpty.string_of_uint d))
                     + length rest) - length rest)) as [Hlt|_];
     [lia|done]).
Qed.

Lemma float_follows_stop (rest : list N) :
  ends_number rest → float_follows rest = false.
Proof.
  destruct rest as [|c r]; [done|]. intros (_ & Hp & He & HE).
  unfold float_follows.
  apply N.eqb_neq in Hp as ->. apply N.eqb_neq in He as ->.
  by apply N.eqb_neq in HE as ->.
Qed.

(** The first character of a written integer. *)
Lemma uint_head (p : positive) :
  ∃ c s, code_points (NilEmpty.string_of_uint (Pos.to_uint p)) = c :: s
         ∧ isdigit c = true.
Proof.
  pose proof (DecimalPos.Unsigned.to_uint_nonnil p) as Hn.
  destruct (Pos.to_uint p); cbn [NilEmpty.string_of_uint code_points];
    try done; by eexists _, _.
Qed.

Lemma repr_int_head (z : Z) :
  ∃ c s, repr_int z = c :: s ∧ (isdigit c = true ∨ c = ord "-").
Proof.
  unfold repr_int. destruct z as [|p|p].
  - eexists _, _. split; [done|]. by left.
  - destruct (uint_head p) as (c & s & Hs & Hc).
    exists c, s. split; [exact Hs|]. by left.
  - eexists _, _. split; [done|]. by right.
Qed.

Lemma digit_is_no_sign (c : N) : isdigit c = true → (c =? ord "-") = false.
Proof.
  unfold isdigit, between. intros [H1 H2]%andb_prop.
  apply N.leb_le in H1. apply N.eqb_neq. intros ->. vm_compute in H1. done.
Qed.

Lemma match_number_repr (z : Z) (rest : list N) :
  ends_number rest → (digits z ≤ max_str_digits)%nat →
  match_number (repr_int z ++ rest) = Some (z, rest).
Proof.
  intros Hrest Hdigits. unfold repr_int. destruct z as [|p|p].
  - unfold match_number. simpl. by rewrite float_follows_stop.
  - pose proof (match_natural_uint p rest Hrest Hdigits) as Hm.
    destruct (uint_head p) as (c & s & Hs & Hc).
    change (NilEmpty.string_of_int (Z.to_int (Z.pos p)))
      with (NilEmpty.string_of_uint (Pos.to_uint p)).
    rewrite Hs in Hm |- *. unfold match_number. cbn [app] in Hm |- *.
    by rewrite (digit_is_no_sign c Hc), Hm, float_follows_stop.
  - unfold match_number.
    change (code_points (NilEmpty.string_of_int (Z.to_int (Z.neg p))) ++ rest)
      with (ord "-" :: code_points (NilEmpty.string_of_uint (Pos.to_uint p)) ++ rest).
    cbv beta iota. rewrite N.eqb_refl.
    rewrite (match_natural_uint p rest Hrest Hdigits).
    by rewrite float_follows_stop.
Qed.

Lemma digit_opens (c : N) : isdigit c = true → opens_value c.
Proof.
  unfold isdigit, between, opens_value, is_ws. intros [H1 H2]%andb_prop.
  apply N.leb_le in H1, H2. vm_compute (ord _) in *.
  repeat split; [|lia|lia].
  repeat (apply orb_false_intro); apply N.eqb_neq; lia.
Qed.

Lemma encode_head (level : nat) (v : value) :
  ∃ c s, encode level v = c :: s ∧ opens_value c.
Proof.
  destruct v as [|z|str|[|x xs]|[|[k x] xs]]; cbn [encode code_points];
    try (eexists _, _; split; [reflexivity|by vm_compute]).
  destruct (repr_int_head z) as (c & s & -> & [Hc | ->]).
  - exists c, s. split; [done|]. by apply digit_opens.
  - eexists _, _. split; [done|]. by vm_compute.
Qed.

(** *** White space and delimiters *)

Lemma skip_ws_stay (c : N) (s : list N) :
  is_ws c = false → skip_ws (c :: s) = c :: s.
Proof. intros Hc. cbn [skip_ws]. by rewrite Hc. Qed.

Lemma skip_ws_blank (s : list N) : skip_ws (ord " " :: s) = skip_ws s.
Proof. done. Qed.

Lemma skip_ws_spaces (n : nat) (s : list N) :
  skip_ws (replicate n (ord " ") ++ s) = skip_ws s.
Proof. induction n as [|n IH]; [done|]. cbn [replicate app]. by rewrite skip_ws_blank. Qed.

Lemma skip_ws_newline_indent (level : nat) (s : list N) :
  skip_ws (newline_indent level ++ s) = skip_ws s.
Proof.
  unfold newline_indent. cbn [app].
  change (skip_ws (line_feed :: ?t)) with (skip_ws t).
  apply skip_ws_spaces.
Qed.

Lemma skip_ws_encode (level : nat) (v : value) (rest : list N) :
  skip_ws (encode level v ++ rest) = encode level v ++ rest.
Proof.
  destruct (encode_head level v) as (c & s & -> & Hc & _).
  by apply skip_ws_stay.
Qed.

Lemma next_is_same (c : N) (s : list N) : next_is c (c :: s) = Some s.
Proof. cbn [next_is]. by rewrite N.eqb_refl. Qed.

Lemma next_is_other (c d : N) (s : list N) :
  d ≠ c → next_is c (d :: s) = None.
Proof. intros Hne. cbn [next_is]. by apply N.eqb_neq in Hne as ->. Qed.

Lemma next_is_encode (level : nat) (v : value) (rest : list N) :
  next_is (ord "]") (encode level v ++ rest) = None
  ∧ next_is (ord "}") (encode level v ++ rest) = None.
Proof.
  destruct (encode_head level v) as (c & s & -> & _ & H1 & H2).
  split; by apply next_is_other.
Qed.

Lemma ends_number_newline_indent (level : nat) (s : list N) :
  ends_number (newline_indent level ++ s).
Proof. by vm_compute. Qed.

Lemma ends_number_list_items enc l xs level (s : list N) :
  ends_number (list_items enc l false xs ++ newline_indent level ++ s).
Proof. destruct xs as [|y ys]; by vm_compute. Qed.

Lemma ends_number_dict_items enc l xs level (s : list N) :
  ends_number (dict_items enc l false xs ++ newline_indent level ++ s).
Proof. destruct xs as [|[k y] ys]; by vm_compute. Qed.

(** *** Sizes *)

Lemma size_positive (v : value) : (1 ≤ size v)%nat.
Proof. destruct v; simpl; lia. Qed.

Lemma length_le_sizes (l : list value) :
  (length l ≤ list_sum (map size l))%nat.
Proof.
  induction l as [|x l IH]; simpl; [done|].
  pose proof (size_positive x). lia.
Qed.

Lemma length_le_sizes_pairs (l : list (list N * value)) :
  (length l ≤ list_sum (map (λ kv, size (snd kv)) l))%nat.
Proof.
  induction l as [|[k x] l IH]; simpl; [done|].
  pose proof (size_positive x). lia.
Qed.

Lemma items_within (n : nat) (items : list value) :
  (list_sum (map size items) ≤ n)%nat →
  Forall (λ x, (size x ≤ n)%nat) items.
Proof.
  induction items as [|x items IH]; simpl; intros Hsum; constructor; [lia|].
  apply IH. lia.
Qed.

Lemma pairs_within (n : nat) (items : list (list N * value)) :
  (list_sum (map (λ kv, size (snd kv)) items) ≤ n)%nat →
  Forall (λ kv, (size (snd kv) ≤ n)%nat) items.
Proof.
  induction items as [|x items IH]; simpl; intros Hsum; constructor; [lia|].
  apply IH. lia.
Qed.

(** Induction on a value, with the property at hand for every item of a
    list and every value of a dictionary. *)
Lemma value_induction (P : value → Prop) :
  P PyNone → (∀ z, P (PyInt z)) → (∀ s, P (PyStr s)) →
  (∀ items, Forall P items → P (PyList items)) →
  (∀ items, Forall (λ kv, P (snd kv)) items → P (PyDict items)) →
  ∀ v, P v.
Proof.
  intros Hnone Hint Hstr Hlist Hdict v.
  assert (Hall : ∀ n v, (size v ≤ n)%nat → P v); [|by apply (Hall (size v))].
  clear v. induction n as [|n IH]; intros v Hn.
  { pose proof (size_positive v). lia. }
  destruct v as [|z|str|xs|xs]; [done..| |].
  - apply Hlist. cbn [size] in Hn.
    eapply Forall_impl; [apply (items_within n); lia|]. done.
  - apply Hdict. cbn [size] in Hn.
    eapply Forall_impl; [apply (pairs_within n); lia|]. intros kv. apply IH.
Qed.

(** *** Dictionaries *)

Lemma dict_set_fresh k v (d : list (list N * value)) :
  k ∉ map fst d → dict_set k v d = d ++ [(k, v)].
Proof.
  induction d as [|[k' v'] d IH]; simpl; [done|].
  intros Hk. apply not_elem_of_cons in Hk as [Hne Hk].
  rewrite bool_decide_false by done.
  by rewrite IH.
Qed.

Lemma dict_of_pairs_distinct (pairs : list (list N * value)) : ∀ acc,
  NoDup (map fst (acc ++ pairs)) →
  fold_left (λ d kv, dict_set (fst kv) (snd kv) d) pairs acc = acc ++ pairs.
Proof.
  induction pairs as [|[k v] pairs IH]; intros acc Hnd; simpl.
  - by rewrite app_nil_r.
  - rewrite dict_set_fresh.
    + rewrite IH; rewrite <- app_assoc; done.
    + rewrite map_app in Hnd. apply NoDup_app in Hnd as (_ & Hd & _).
      intros Hin. apply (Hd k Hin). simpl. left.
Qed.

(** *** Values *)

Lemma scan_once_number (fuel : nat) (c : N) (s : list N) :
  isdigit c = true ∨ c = ord "-" →
  scan_once (S fuel) (c :: s)
  = match match_number (c :: s) with
    | Some (n, r) => Some (PyInt n, r)
    | None => None
    end.
Proof.
  intros Hc.
  assert (Hrange : ord "-" ≤ c ≤ ord "9").
  { destruct Hc as [[H1 H2]%andb_prop | ->]; [|by vm_compute].
    apply N.leb_le in H1, H2. vm_compute (ord _) in *. lia. }
  vm_compute (ord _) in Hrange.
  cbn [scan_once after_null].
  assert ((c =? dquote) = false) as -> by (apply N.eqb_neq; vm_compute (dquote); lia).
  assert ((c =? ord "{") = false) as -> by (apply N.eqb_neq; vm_compute (ord _); lia).
  assert ((c =? ord "[") = false) as -> by (apply N.eqb_neq; vm_compute (ord _); lia).
  assert ((c =? ord "n") = false) as -> by (apply N.eqb_neq; vm_compute (ord _); lia).
  by destruct s as [|? [|? [|? ?]]].
Qed.

Lemma list_items_more enc l (y : value) ys (s : list N) :
  list_items enc l false (y :: ys) ++ s
  = ord "," :: newline_indent l ++ enc y ++ list_items enc l false ys ++ s.
Proof. cbn [list_items app]. by rewrite <- !app_assoc. Qed.

Lemma dict_items_more enc l k (y : value) ys (s : list N) :
  dict_items enc l false ((k, y) :: ys) ++ s
  = ord "," :: newline_indent l
      ++ dquote :: escape k
      ++ dquote :: ord ":" :: ord " " :: enc y ++ dict_items enc l false ys ++ s.
Proof.
  cbn [dict_items]. rewrite <- !app_assoc. rewrite basestring_app.
  cbn [app]. by rewrite <- ?app_assoc.
Qed.

Section Containers.
(** The scanner with some fuel reads back every value that is small
    enough for the fuel. *)
Variable fuel : nat.
Hypothesis scan_small : ∀ v level rest,
  (size v ≤ fuel)%nat → distinct_keys v → ints_ok v = true →
  ends_number rest →
  scan_once fuel (encode level v ++ rest) = Some (v, rest).

Lemma array_loop_items (level : nat) (rest : list N) (xs : list value) :
  ∀ (x : value) (values : list value) (n : nat),
    (length xs < n)%nat →
    Forall (λ y, (size y ≤ fuel)%nat ∧ distinct_keys y ∧ ints_ok y = true)
           (x :: xs) →
    array_loop (scan_once fuel) n values
      (encode (S level) x
       ++ list_items (encode (S level)) (S level) false xs
       ++ newline_indent level ++ ord "]" :: rest)
    = Some (PyList (values ++ x :: xs), rest).
Proof.
  induction xs as [|y ys IH]; intros x values n Hn Hall;
    (destruct n as [|n]; [simpl in Hn; lia|]);
    inversion Hall as [|? ? (Hsize & Hkeys & Hints) Hall']; subst;
    cbn [array_loop].
  - rewrite scan_small by (done || apply ends_number_newline_indent).
    cbn [list_items app]. cbv zeta.
    rewrite skip_ws_newline_indent, skip_ws_stay by done.
    by rewrite next_is_same.
  - rewrite scan_small; [|done|done|done|by apply ends_number_list_items].
    rewrite list_items_more. cbv zeta.
    rewrite skip_ws_stay by done.
    rewrite next_is_other by done. rewrite next_is_same.
    rewrite skip_ws_newline_indent, skip_ws_encode.
    rewrite IH; [|simpl in Hn; lia|done].
    by rewrite <- app_assoc.
Qed.

Lemma object_loop_items (level : nat) (rest : list N)
      (xs : list (list N * value)) :
  ∀ (k : list N) (x : value) (pairs : list (list N * value)) (n : nat),
    (length xs < n)%nat →
    Forall (λ kv, (size (snd kv) ≤ fuel)%nat ∧ distinct_keys (snd kv)
                  ∧ ints_ok (snd kv) = true)
           ((k, x) :: xs) →
    object_loop (scan_once fuel) n pairs
      (escape k
       ++ dquote :: ord ":" :: ord " " :: encode (S level) x
       ++ dict_items (encode (S level)) (S level) false xs
       ++ newline_indent level ++ ord "}" :: rest)
    = Some (PyDict (dict_of_pairs (pairs ++ (k, x) :: xs)), rest).
Proof.
  induction xs as [|[k' y] ys IH]; intros k x pairs n Hn Hall;
    (destruct n as [|n]; [simpl in Hn; lia|]);
    inversion Hall as [|? ? (Hsize & Hkeys & Hints) Hall']; subst;
    cbn [object_loop]; rewrite scanstring_escape;
    rewrite skip_ws_stay by done; rewrite next_is_same;
    rewrite skip_ws_blank, skip_ws_encode.
  - rewrite scan_small by (done || apply ends_number_newline_indent).
    cbn [dict_items app]. cbv zeta.
    rewrite skip_ws_newline_indent, skip_ws_stay by done.
    by rewrite next_is_same.
  - rewrite scan_small; [|done|done|done|by apply ends_number_dict_items].
    rewrite dict_items_more. cbv zeta.
    rewrite skip_ws_stay by done.
    rewrite next_is_other by done. rewrite next_is_same.
    rewrite skip_ws_newline_indent, skip_ws_stay by done.
    rewrite next_is_same.
    cbn [snd] in IH.
    rewrite IH; [|simpl in Hn; lia|done].
    by rewrite <- app_assoc.
Qed.
End Containers.

Lemma sizes_of_items (f : nat) (items : list value) :
  (list_sum (map size items) ≤ f)%nat →
  Forall id (map distinct_keys items) →
  forallb ints_ok items = true →
  Forall (λ y, (size y ≤ f)%nat ∧ distinct_keys y ∧ ints_ok y = true) items.
Proof.
  induction items as [|x items IH]; simpl; intros Hsum Hkeys Hints; [done|].
  inversion Hkeys; subst. apply andb_prop in Hints as [Hx Hints].
  constructor; [split; [lia|done]|].
  apply IH; [lia|done|done].
Qed.

Lemma sizes_of_pairs (f : nat) (items : list (list N * value)) :
  (list_sum (map (λ kv, size (snd kv)) items) ≤ f)%nat →
  Forall id (map (λ kv, distinct_keys (snd kv)) items) →
  forallb (λ kv, ints_ok (snd kv)) items = true →
  Forall (λ kv, (size (snd kv) ≤ f)%nat ∧ distinct_keys (snd kv)
                ∧ ints_ok (snd kv) = true) items.
Proof.
  induction items as [|x items IH]; simpl; intros Hsum Hkeys Hints; [done|].
  inversion Hkeys; subst. apply andb_prop in Hints as [Hx Hints].
  constructor; [split; [lia|done]|].
  apply IH; [lia|done|done].
Qed.

(** With fuel for its size, the scanner reads an encoded value back and
    stops right after it. *)
Lemma scan_once_encode (fuel : nat) : ∀ v level rest,
  (size v ≤ fuel)%nat → distinct_keys v → ints_ok v = true →
  ends_number rest →
  scan_once fuel (encode level v ++ rest) = Some (v, rest).
Proof.
  induction fuel as [|fuel IH]; intros v level rest Hsize Hkeys Hints Hrest.
  { pose proof (size_positive v). lia. }
  destruct v as [|z|str|[|x xs]|[|[k x] xs]].
  - done.
  - cbn [encode].
    destruct (repr_int_head z) as (c & s & Hs & Hc).
    pose proof (match_number_repr z rest Hrest) as Hm.
    cbn [ints_ok] in Hints. apply Nat.leb_le in Hints. specialize (Hm Hints).
    rewrite Hs in Hm |- *. cbn [app] in Hm |- *.
    by rewrite scan_once_number, Hm.
  - cbn [encode]. rewrite basestring_app.
    cbn [scan_once]. rewrite N.eqb_refl. by rewrite scanstring_escape.
  - done.
  - cbn [encode size distinct_keys ints_ok] in *.
    apply (sizes_of_items fuel) in Hkeys; [|lia|done].
    pose proof (length_le_sizes (x :: xs)) as Hlen. cbn [length] in Hlen.
    cbn [app]. rewrite <- !app_assoc.
    cbn [scan_once]. change (ord "[" =? dquote) with false.
    change (ord "[" =? ord "{") with false. rewrite N.eqb_refl.
    cbv iota. unfold parse_array. cbn [list_items]. rewrite <- !app_assoc.
    rewrite skip_ws_newline_indent, skip_ws_encode.
    cbv zeta. rewrite (proj1 (next_is_encode _ _ _)).
    cbn [app].
    rewrite (array_loop_items fuel IH level rest xs x [] fuel); [done|lia|done].
  - done.
  - cbn [encode size distinct_keys ints_ok] in *.
    destruct Hkeys as [Hnd Hkeys].
    apply (sizes_of_pairs fuel) in Hkeys; [|lia|done].
    pose proof (length_le_sizes_pairs ((k, x) :: xs)) as Hlen.
    cbn [length] in Hlen.
    cbn [app]. rewrite <- !app_assoc.
    cbn [scan_once]. change (ord "{" =? dquote) with false.
    rewrite N.eqb_refl.
    cbv iota. unfold parse_object. cbn [dict_items]. rewrite <- !app_assoc.
    rewrite basestring_app.
    rewrite skip_ws_newline_indent, skip_ws_stay by done.
    cbv zeta. rewrite next_is_other by done. rewrite next_is_same.
    cbn [app].
    rewrite (object_loop_items fuel IH level rest xs k x [] fuel);
      [|lia|done].
    unfold dict_of_pairs. by rewrite dict_of_pairs_distinct.
Qed.

(** *** Fuel: the length of the text is enough *)

Lemma sizes_le_list_items enc l (items : list value) : ∀ first,
  Forall (λ x, (size x ≤ length (enc x))%nat) items →
  (list_sum (map size items) ≤ length (list_items enc l first items))%nat.
Proof.
  induction items as [|x items IH]; intros first Hall; simpl; [done|].
  inversion Hall; subst. rewrite !length_app.
  specialize (IH false ltac:(done)). lia.
Qed.

Lemma sizes_le_dict_items enc l (items : list (list N * value)) : ∀ first,
  Forall (λ kv, (size (snd kv) ≤ length (enc (snd kv)))%nat) items →
  (list_sum (map (λ kv, size (snd kv)) items)
   ≤ length (dict_items enc l first items))%nat.
Proof.
  induction items as [|[k x] items IH]; intros first Hall; [done|].
  inversion Hall as [|? ? Hx Hrest]; subst.
  cbn [dict_items map list_sum snd] in *. rewrite !length_app.
  specialize (IH false Hrest).
  change (list_sum (?a :: ?r)) with (a + list_sum r)%nat. lia.
Qed.

Lemma size_le_length (v : value) : ∀ level,
  (size v ≤ length (encode level v))%nat.
Proof.
  induction v as [|z|str|xs IH|xs IH] using value_induction; intros level;
    try (simpl; lia).
  - destruct (repr_int_head z) as (c & s & Hs & _).
    cbn [encode size]. rewrite Hs. simpl. lia.
  - destruct xs as [|x xs]; [simpl; lia|].
    cbn [encode size length]. rewrite !length_app.
    pose proof (sizes_le_list_items (encode (S level)) (S level) (x :: xs) true) as H.
    specialize (H ltac:(eapply Forall_impl; [exact IH|]; intros y Hy; apply Hy)).
    lia.
  - destruct xs as [|x xs]; [simpl; lia|].
    cbn [encode size length]. rewrite !length_app.
    pose proof (sizes_le_dict_items (encode (S level)) (S level) (x :: xs) true) as H.
    specialize (H ltac:(eapply Forall_impl; [exact IH|]; intros y Hy; apply Hy)).
    lia.
Qed.

(** Reading back what was written gives the value that was written. *)
Lemma loads_dumps (v : value) (text : list N) :
  distinct_keys v → dumps v = Some text → loads text = Some v.
Proof.
  intros Hkeys. unfold loads, dumps.
  destruct (ints_ok v) eqn:Hints; [|done]. intros [= <-].
  pose proof (skip_ws_encode 0 v []) as Hskip.
  rewrite app_nil_r in Hskip. rewrite Hskip.
  pose proof (scan_once_encode (length (encode 0 v)) v 0 []
                (size_le_length v 0) Hkeys Hints I) as Hscan.
  rewrite app_nil_r in Hscan. by rewrite Hscan.
Qed.

End JsonFacts.

Section FileFacts.
Import Json.
Local Open Scope N_scope.

(** *** UTF-8 *)

Lemma div_4096 (c : N) : c / 4096 = c / 64 / 64.
Proof. by rewrite N.Div0.div_div. Qed.

Lemma div_262144 (c : N) : c / 262144 = c / 64 / 64 / 64.
Proof. by rewrite !N.Div0.div_div. Qed.

Ltac split_64 c :=
  let q := fresh "q" in
  let r := fresh "r" in
  pose proof (N.div_mod c 64 ltac:(discriminate));
  pose proof (N.mod_lt c 64 ltac:(discriminate));
  set (q := c / 64) in *; set (r := c mod 64) in *; clearbody q r.

Lemma not_surrogate (c : N) : surrogate c = false ↔ c < 55296 ∨ 57343 < c.
Proof.
  unfold surrogate, between. rewrite andb_false_iff, !N.leb_gt. done.
Qed.

(** The decoder reads the bytes of one code point back. *)
Lemma utf8_decode_char (c : N) (bs rest : list N) :
  utf8_char c = Some bs →
  utf8_decode (bs ++ rest) = decoded c (utf8_decode rest).
Proof.
  unfold utf8_char.
  destruct (N.ltb_spec c 128) as [H1|H1].
  { intros [= <-]. cbn [app utf8_decode]. by settle_tests. }
  destruct (N.ltb_spec c 2048) as [H2|H2].
  { intros [= <-]. split_64 c.
    cbn [app utf8_decode]. unfold continuation, between. settle_tests.
    cbn [andb]. f_equal. lia. }
  destruct (N.ltb_spec c 65536) as [H3|H3].
  { destruct (surrogate c) eqn:Hs; [done|]. intros [= <-].
    apply not_surrogate in Hs.
    rewrite div_4096. split_64 c. split_64 q.
    cbn [app utf8_decode]. unfold continuation, surrogate, between.
    destruct Hs as [Hs|Hs]; settle_tests; cbn [andb negb]; f_equal; lia. }
  destruct (N.ltb_spec c 1114112) as [H4|H4]; [|done].
  intros [= <-].
  rewrite div_262144, div_4096. split_64 c. split_64 q. split_64 q0.
  cbn [app utf8_decode]. unfold continuation, between. settle_tests.
  cbn [andb]. f_equal. lia.
Qed.

Lemma utf8_decode_encode (s : list N) : ∀ bs,
  utf8_encode s = Some bs → utf8_decode bs = Some s.
Proof.
  induction s as [|c s IH]; intros bs; cbn [utf8_encode].
  { by intros [= <-]. }
  destruct (utf8_char c) as [b|] eqn:Hc; [|done].
  destruct (utf8_encode s) as [rest|]; [|done].
  intros [= <-]. by rewrite (utf8_decode_char c b rest Hc), (IH rest).
Qed.

Lemma utf8_char_scalar (c : N) : scalar c = true → is_Some (utf8_char c).
Proof.
  unfold scalar, utf8_char. intros [H1 H2%negb_true_iff]%andb_prop.
  rewrite H1, H2. by repeat case_match.
Qed.

Lemma utf8_char_some (c : N) : is_Some (utf8_char c) → scalar c = true.
Proof.
  unfold scalar, utf8_char. intros [bs Hbs].
  destruct (N.ltb_spec c 128) as [H1|H1].
  { unfold surrogate, between. settle_tests. done. }
  destruct (N.ltb_spec c 2048) as [H2|H2].
  { unfold surrogate, between. settle_tests. done. }
  destruct (N.ltb_spec c 65536) as [H3|H3].
  { destruct (surrogate c); [done|]. by settle_tests. }
  destruct (N.ltb_spec c 1114112) as [H4|H4]; [|done].
  unfold surrogate, between. settle_tests. done.
Qed.

(** The codec raises on a text exactly when the text is not
    UTF-8-safe. *)
Lemma utf8_encode_safe (s : list N) : is_Some (utf8_encode s) ↔ utf8_safe s.
Proof.
  unfold utf8_safe. induction s as [|c s IH]; cbn [utf8_encode].
  { split; [by constructor|by eexists]. }
  rewrite Forall_cons, <- IH. split.
  - intros [bs Hbs]. destruct (utf8_char c) eqn:Hc; [|done].
    destruct (utf8_encode s); [|done].
    split; [|by eexists]. apply utf8_char_some. by eexists.
  - intros [[b ->]%utf8_char_scalar [rest ->]]. by eexists.
Qed.

(** *** Line ends *)

Lemma read_write_newlines (nl : Newline) (s : list N) :
  carriage_return ∉ s → read_newlines (write_newlines nl s) = s.
Proof.
  induction s as [|c s IH]; [done|].
  intros [Hc Hs]%not_elem_of_cons. specialize (IH Hs).
  cbn [write_newlines].
  destruct (N.eqb_spec c line_feed) as [->|Hlf].
  - destruct nl; cbn; by rewrite IH.
  - cbn [app read_newlines].
    apply not_eq_sym, N.eqb_neq in Hc. rewrite Hc. by rewrite IH.
Qed.

Lemma write_newlines_safe (nl : Newline) (s : list N) :
  utf8_safe s → utf8_safe (write_newlines nl s).
Proof.
  unfold utf8_safe. induction 1 as [|c s Hc Hs IH]; cbn [write_newlines].
  { constructor. }
  apply Forall_app. split; [|done].
  destruct (c =? line_feed); [destruct nl|]; by repeat constructor.
Qed.

(** A text without carriage return that is UTF-8-safe is written to a
    file, whatever the line end of the platform, and read back as it
    was. *)
Lemma read_write_text (nl : Newline) (s : list N) :
  utf8_safe s → carriage_return ∉ s →
  ∃ file, write_text nl s = Some file ∧ read_text file = Some s.
Proof.
  intros Hsafe Hcr. unfold write_text, read_text.
  destruct (proj2 (utf8_encode_safe _) (write_newlines_safe nl s Hsafe))
    as [file Hfile].
  exists file. split; [done|].
  rewrite (utf8_decode_encode _ _ Hfile). cbn.
  by rewrite read_write_newlines.
Qed.

End FileFacts.

Section OutputFacts.
Import Json.
Local Open Scope N_scope.

(** *** The characters of the output *)

Lemma Forall_concat_map {A B} (Q : B → Prop) (f : A → list B) (l : list A) :
  Forall Q (concat (map f l)) ↔ Forall (λ x, Forall Q (f x)) l.
Proof.
  induction l as [|x l IH]; cbn [map concat].
  - split; constructor.
  - by rewrite Forall_app, Forall_cons, IH.
Qed.

Section Characters.
(** A property of every printable ASCII character. *)
Variable P : N → Prop.
Hypothesis P_printable : ∀ c, 32 ≤ c < 127 → P c.

Ltac printable := apply P_printable; vm_compute; split; [discriminate|reflexivity].

Lemma hex_digit_printable (n : N) : n < 16 → P (hex_digit n).
Proof.
  intros Hn. apply P_printable. unfold hex_digit.
  destruct (N.ltb_spec n 10); vm_compute (ord _); lia.
Qed.

Lemma escape_char_chars (c : N) : (32 ≤ c → P c) → Forall P (escape_char c).
Proof.
  intros Hc. unfold escape_char.
  repeat case_match; repeat constructor; try printable.
  - apply hex_digit_printable. apply N.Div0.div_lt_upper_bound.
    match goal with H : (c <? 32) = true |- _ => apply N.ltb_lt in H; lia end.
  - apply hex_digit_printable. by apply N.mod_lt.
  - apply Hc. by apply N.ltb_ge.
Qed.

Lemma escape_chars (s : list N) :
  Forall (λ c, 32 ≤ c → P c) s → Forall P (escape s).
Proof.
  induction 1 as [|c s Hc Hs IH]; cbn [escape]; [constructor|].
  apply Forall_app. split; [by apply escape_char_chars|done].
Qed.

Lemma basestring_chars (s : list N) :
  Forall (λ c, 32 ≤ c → P c) s → Forall P (encode_basestring s).
Proof.
  intros Hs. unfold encode_basestring. constructor; [printable|].
  apply Forall_app. split; [by apply escape_chars|].
  repeat constructor. printable.
Qed.

Lemma uint_chars (d : Decimal.uint) :
  Forall P (code_points (NilEmpty.string_of_uint d)).
Proof.
  induction d; cbn [NilEmpty.string_of_uint code_points]; constructor;
    try done; printable.
Qed.

Lemma repr_int_chars (z : Z) : Forall P (repr_int z).
Proof.
  unfold repr_int. destruct z as [|p|p].
  - repeat constructor. printable.
  - apply uint_chars.
  - change (NilEmpty.string_of_int (Z.to_int (Z.neg p)))
      with (String "-" (NilEmpty.string_of_uint (Pos.to_uint p))).
    cbn [code_points]. constructor; [printable|apply uint_chars].
Qed.

Hypothesis P_line_feed : P line_feed.

Lemma newline_indent_chars (level : nat) : Forall P (newline_indent level).
Proof.
  unfold newline_indent. constructor; [done|].
  apply Forall_replicate. printable.
Qed.

Lemma separator_chars (first : bool) (level : nat) :
  Forall P (if first then newline_indent level else ord "," :: newline_indent level).
Proof.
  destruct first; [|constructor; [printable|]]; apply newline_indent_chars.
Qed.

Lemma list_items_chars enc level (items : list value) : ∀ first,
  Forall (λ x, Forall P (enc x)) items →
  Forall P (list_items enc level first items).
Proof.
  induction items as [|x items IH]; intros first Hall; [constructor|].
  inversion Hall as [|? ? Hx Hrest]; subst. cbn [list_items].
  rewrite !Forall_app. split_and!; [apply separator_chars|done|by apply IH].
Qed.

Lemma dict_items_chars enc level (items : list (list N * value)) : ∀ first,
  Forall (λ kv, Forall (λ c, 32 ≤ c → P c) kv.1 ∧ Forall P (enc kv.2)) items →
  Forall P (dict_items enc level first items).
Proof.
  induction items as [|[k x] items IH]; intros first Hall; [constructor|].
  inversion Hall as [|? ? [Hk Hx] Hrest]; subst. cbn [dict_items].
  rewrite !Forall_app.
  split_and!; [apply separator_chars|by apply basestring_chars| |done|by apply IH].
  repeat constructor; printable.
Qed.

(** Every character of the output is a line feed, a printable ASCII
    character or a character of one of the texts that is no control
    character. *)
Lemma encode_chars (v : value) : ∀ level,
  Forall (Forall (λ c, 32 ≤ c → P c)) (texts v) → Forall P (encode level v).
Proof.
  induction v as [|z|str|xs IH|xs IH] using value_induction;
    intros level Htexts.
  - repeat constructor; printable.
  - apply repr_int_chars.
  - apply basestring_chars. by inversion Htexts.
  - destruct xs as [|x xs]; [repeat constructor; printable|].
    cbn [encode]. constructor; [printable|].
    rewrite !Forall_app. split_and!.
    + apply list_items_chars. cbn [texts] in Htexts.
      apply (Forall_concat_map (Forall (λ c, 32 ≤ c → P c)) texts) in Htexts.
      eapply Forall_impl; [exact (proj2 (Forall_and _ _) (conj IH Htexts))|].
      intros y [Hy Ht]. by apply Hy.
    + apply newline_indent_chars.
    + repeat constructor. printable.
  - destruct xs as [|x xs]; [repeat constructor; printable|].
    cbn [encode]. constructor; [printable|].
    rewrite !Forall_app. split_and!.
    + apply dict_items_chars. cbn [texts] in Htexts.
      apply (Forall_concat_map (Forall (λ c, 32 ≤ c → P c))
               (λ kv, kv.1 :: texts kv.2)) in Htexts.
      eapply Forall_impl; [exact (proj2 (Forall_and _ _) (conj IH Htexts))|].
      intros [k y] [Hy Ht]. cbn [fst snd] in *. inversion Ht; subst.
      split; [done|]. by apply Hy.
    + apply newline_indent_chars.
    + repeat constructor. printable.
Qed.
End Characters.

Lemma printable_scalar (c : N) : 32 ≤ c < 127 → scalar c = true.
Proof. intros Hc. unfold scalar, surrogate, between. by settle_tests. Qed.

(** The text of a value with UTF-8-safe texts is UTF-8-safe. *)
Lemma encode_safe (v : value) (level : nat) :
  Forall utf8_safe (texts v) → utf8_safe (encode level v).
Proof.
  intros Htexts. apply (encode_chars (λ c, scalar c = true) printable_scalar).
  { done. }
  eapply Forall_impl; [exact Htexts|]. intros s Hs.
  eapply Forall_impl; [exact Hs|]. by intros c Hc _.
Qed.

(** Every character of the text of a value is a line feed or no control
    character. *)
Lemma encode_line_feed_or_plain (v : value) (level : nat) :
  Forall (λ c, c = line_feed ∨ 32 ≤ c) (encode level v).
Proof.
  apply (encode_chars (λ c, c = line_feed ∨ 32 ≤ c)).
  - intros c Hc. right. lia.
  - by left.
  - apply Forall_forall. intros s _. apply Forall_forall. intros c _ Hc.
    by right.
Qed.

Lemma encode_no_carriage_return (v : value) (level : nat) :
  carriage_return ∉ encode level v.
Proof.
  intros Hin.
  pose proof (proj1 (Forall_forall _ _) (encode_line_feed_or_plain v level) _ Hin)
    as Hc.
  unfold carriage_return, line_feed in Hc. lia.
Qed.

(** A value with UTF-8-safe texts is written to a file and read back as
    it was, whatever the line end of the platform. *)
Lemma load_dump (nl : Newline) (v : value) :
  distinct_keys v → ints_ok v = true → Forall utf8_safe (texts v) →
  ∃ file,
    dumps v ≫= write_text nl = Some file ∧ load_citations file = Some v.
Proof.
  intros Hkeys Hints Htexts.
  destruct (read_write_text nl (encode 0 v) (encode_safe v 0 Htexts)
              (encode_no_carriage_return v 0)) as (file & Hwrite & Hread).
  assert (Hdumps : dumps v = Some (encode 0 v)).
  { unfold dumps. by rewrite Hints. }
  exists file. rewrite Hdumps. split; [done|].
  unfold load_citations. rewrite Hread. cbn. by apply loads_dumps.
Qed.

(** *** Control characters *)

Lemma control_characters_app (a b : list N) :
  control_characters (a ++ b) = control_characters a ++ control_characters b.
Proof. apply filter_app. Qed.

Lemma control_characters_none (s : list N) :
  Forall (λ c, 32 ≤ c) s → control_characters s = [].
Proof.
  unfold control_characters. induction 1 as [|c s Hc Hs IH]; [done|].
  rewrite filter_cons_False by lia. done.
Qed.

Lemma control_characters_basestring (s : list N) :
  control_characters (encode_basestring s) = [].
Proof.
  apply control_characters_none.
  apply (basestring_chars (λ c, 32 ≤ c)); [lia|].
  apply Forall_forall. by intros c _ Hc.
Qed.

Lemma control_characters_separator (first : bool) (level : nat) :
  control_characters (if first then newline_indent level
                      else ord "," :: newline_indent level)
  = [line_feed].
Proof.
  assert (Hindent : control_characters (newline_indent level) = [line_feed]).
  { unfold newline_indent. change (line_feed :: ?s) with ([line_feed] ++ s).
    rewrite control_characters_app, (control_characters_none (replicate _ _)).
    - done.
    - apply Forall_replicate. by vm_compute. }
  destruct first; [done|].
  change (ord "," :: ?s) with ([ord ","] ++ s).
  by rewrite control_characters_app, Hindent.
Qed.

Lemma control_characters_list_items enc level (items : list value) : ∀ first,
  Forall (λ x, control_characters (enc x) = control_characters (enc (layout x)))
         items →
  control_characters (list_items enc level first items)
  = control_characters (list_items enc level first (map layout items)).
Proof.
  induction items as [|x items IH]; intros first Hall; [done|].
  inversion Hall as [|? ? Hx Hrest]; subst. cbn [list_items map].
  rewrite !control_characters_app. by rewrite Hx, (IH false Hrest).
Qed.

Lemma control_characters_dict_items enc level (items : list (list N * value)) :
  ∀ first,
  Forall (λ kv, control_characters (enc kv.2)
                = control_characters (enc (layout kv.2))) items →
  control_characters (dict_items enc level first items)
  = control_characters
      (dict_items enc level first (map (λ kv, (kv.1, layout kv.2)) items)).
Proof.
  induction items as [|[k x] items IH]; intros first Hall; [done|].
  inversion Hall as [|? ? Hx Hrest]; subst. cbn [dict_items map fst snd] in *.
  rewrite !control_characters_app. by rewrite Hx, (IH false Hrest).
Qed.

(** The control characters of the output are those of its layout. *)
Lemma control_characters_layout (v : value) : ∀ level,
  control_characters (encode level v)
  = control_characters (encode level (layout v)).
Proof.
  induction v as [|z|str|xs IH|xs IH] using value_induction; intros level;
    try done.
  - cbn [layout encode]. by rewrite !control_characters_basestring.
  - destruct xs as [|x xs]; [done|].
    cbn [layout encode map].
    change (ord "[" :: ?s) with ([ord "["] ++ s).
    rewrite !control_characters_app. do 2 f_equal.
    apply (control_characters_list_items _ _ (x :: xs)).
    eapply Forall_impl; [exact IH|]. intros y Hy. apply Hy.
  - destruct xs as [|[k x] xs]; [done|].
    cbn [layout encode map].
    change (ord "{" :: ?s) with ([ord "{"] ++ s).
    rewrite !control_characters_app. do 2 f_equal.
    apply (control_characters_dict_items _ _ ((k, x) :: xs)).
    eapply Forall_impl; [exact IH|]. intros y Hy. apply Hy.
Qed.

Lemma control_characters_line_feeds (v : value) (level : nat) :
  Forall (λ c, c = line_feed) (control_characters (encode level v)).
Proof.
  apply Forall_forall. intros c [Hc Hin]%list_elem_of_filter.
  pose proof (proj1 (Forall_forall _ _) (encode_line_feed_or_plain v level) _ Hin)
    as [->|Hplain]; [done|].
  cbv beta in Hc. lia.
Qed.

(** *** The list of citations *)

Lemma texts_of_texts (l : list (list N)) :
  concat (map texts (map PyStr l)) = l.
Proof. induction l as [|x l IH]; [done|]. cbn. by rewrite IH. Qed.

Lemma texts_of_option (o : option (list N)) :
  texts (of_option PyStr o) = option_list o.
Proof. by destruct o. Qed.

Lemma code_points_safe (s : string) : utf8_safe (code_points s).
Proof.
  induction s as [|c s IH]; constructor; [|done].
  pose proof (N_ascii_bounded c). unfold scalar, surrogate, between, ord, Py.code.
  by settle_tests.
Qed.

Lemma texts_of_citation (r : CitationRecord) :
  safe_record r → Forall utf8_safe (texts (of_citation r)).
Proof.
  unfold safe_record, record_texts. rewrite !Forall_app. intros (Ht & Ha & Hp).
  unfold of_citation. cbn [texts map concat fst snd].
  rewrite !texts_of_option, texts_of_texts.
  destruct (record_year r); cbn [of_option texts];
    rewrite ?app_nil_r;
    repeat first [ apply Forall_cons; split; [apply code_points_safe|]
                 | apply Forall_app; split; [done|] ];
    done.
Qed.

Lemma texts_of_citations (rs : list CitationRecord) :
  Forall safe_record rs → Forall utf8_safe (texts (of_citations rs)).
Proof.
  intros Hsafe. unfold of_citations. cbn [texts].
  apply Forall_concat_map. apply Forall_fmap.
  eapply Forall_impl; [exact Hsafe|]. intros r. apply texts_of_citation.
Qed.

Lemma distinct_keys_texts (l : list (list N)) :
  Forall id (map distinct_keys (map PyStr l)).
Proof. induction l; simpl; by constructor. Qed.

Lemma distinct_keys_citations (rs : list CitationRecord) :
  distinct_keys (of_citations rs).
Proof.
  unfold of_citations. simpl.
  induction rs as [|r rs IH]; simpl; constructor; [|done].
  simpl. split.
  - apply (bool_decide_unpack _). by vm_compute.
  - repeat constructor; simpl.
    + by destruct (record_title r).
    + apply distinct_keys_texts.
    + by destruct (record_proceedings r).
    + by destruct (record_year r).
Qed.

Lemma to_texts_of_texts (l : list (list N)) :
  to_texts (PyList (map PyStr l)) = Some l.
Proof.
  unfold to_texts. apply mapM_Some_2.
  induction l as [|x l IH]; simpl; by constructor.
Qed.

Lemma to_citation_of_citation (r : CitationRecord) :
  to_citation (of_citation r) = Some r.
Proof.
  destruct r as [t a p y]. unfold to_citation, of_citation.
  cbn [record_title record_authors record_proceedings record_year].
  change (dict_get (code_points "title") _) with (Some (of_option PyStr t)).
  change (dict_get (code_points "authors") _) with (Some (PyList (map PyStr a))).
  change (dict_get (code_points "proceedings") _) with (Some (of_option PyStr p)).
  change (dict_get (code_points "year") _) with (Some (of_option PyInt y)).
  cbn [mbind option_bind].
  rewrite to_texts_of_texts.
  by destruct t, p, y.
Qed.

Lemma to_citations_of_citations (rs : list CitationRecord) :
  to_citations (of_citations rs) = Some rs.
Proof.
  unfold to_citations, of_citations.
  apply mapM_Some_2.
  induction rs as [|r rs IH]; simpl; constructor; [|done].
  apply to_citation_of_citation.
Qed.

Lemma ints_ok_layout (v : value) : ints_ok (layout v) = ints_ok v.
Proof.
  induction v as [|z|str|xs IH|xs IH] using value_induction; try done;
    cbn [layout ints_ok].
  - induction IH as [|x xs Hx _ IHxs]; [done|].
    cbn [map forallb]. by rewrite Hx, IHxs.
  - induction IH as [|x xs Hx _ IHxs]; [done|].
    cbn [map forallb snd]. by rewrite Hx, IHxs.
Qed.

Lemma ints_ok_texts (l : list (list N)) : forallb ints_ok (map PyStr l) = true.
Proof. by induction l. Qed.

Lemma ints_ok_citations (rs : list CitationRecord) :
  Forall year_within_limit rs → ints_ok (of_citations rs) = true.
Proof.
  unfold of_citations. cbn [ints_ok].
  induction 1 as [|r rs Hr _ IH]; [done|].
  cbn [map forallb]. rewrite IH, andb_true_r.
  unfold of_citation. cbn [ints_ok forallb snd]. rewrite ints_ok_texts.
  unfold year_within_limit in Hr.
  destruct (record_title r), (record_proceedings r), (record_year r);
    cbn [of_option ints_ok andb]; rewrite ?andb_true_r; try done;
    by apply Nat.leb_le.
Qed.

(** An integer from -9999 to 9999 has at most four digits. *)
Lemma digits_of_year (y : Z) :
  (-9999 ≤ y ≤ 9999)%Z → (digits y ≤ max_str_digits)%nat.
Proof.
  intros Hy.
  assert (Hall : forallb (λ k, (digits (Z.of_nat k) <=? 4)%nat) (seq 0 (100 * 100))
                 = true) by (vm_compute; reflexivity).
  assert (Habs : digits y = digits (Z.of_nat (Z.to_nat (Z.abs y)))).
  { unfold digits. f_equal. f_equal. lia. }
  rewrite Habs.
  pose proof (proj1 (forallb_forall _ _) Hall (Z.to_nat (Z.abs y))) as Hk.
  cbv beta in Hk. rewrite Nat.leb_le in Hk.
  etrans; [apply Hk; apply in_seq; lia|].
  unfold max_str_digits. lia.
Qed.

(** The records of the extractor are UTF-8-safe. *)
Lemma record_of_safe (c : Citation) : safe_record (record_of c).
Proof.
  unfold safe_record, record_texts, record_of.
  cbn [record_title record_authors record_proceedings].
  rewrite !Forall_app. split_and!.
  - destruct (title c); repeat constructor. apply code_points_safe.
  - apply Forall_fmap, Forall_forall. intros s _. apply code_points_safe.
  - destruct (proceedings c); repeat constructor. apply code_points_safe.
Qed.

(** The year of a record of the extractor has at most four digits. *)
Lemma year_of_citation_range (b : Element) (y : Z) :
  year (citation_of b) = Some y → (-999 ≤ y ≤ 9999)%Z.
Proof.
  rewrite year_of_citation.
  destruct (Spec.date_element b) as [d|]; simpl; [|done].
  destruct (Spec.attribute_year d) as [ya|] eqn:Ha.
  - intros [= <-]. by apply (attribute_year_range d).
  - destruct (Spec.text_year d) as [yt|] eqn:Ht; [|done].
    intros [= <-]. apply text_year_range in Ht. lia.
Qed.

Lemma record_of_year (b : Element) : year_within_limit (record_of (citation_of b)).
Proof.
  unfold year_within_limit, record_of. cbn [record_year].
  destruct (year (citation_of b)) as [y|] eqn:Hy; [|done].
  apply digits_of_year. apply year_of_citation_range in Hy. lia.
Qed.

End OutputFacts.

(** C9: a sequence of records whose text fields are all UTF-8-safe, and
    whose years are within the limit of CPython on the digits of an
    integer (every year of four digits is), is written by lines 229-230
    of [main] to the output file, whatever the line end of the platform,
    and [load_citations] reads that file back as the same list of
    dictionaries: the records read back equal the records written field
    for field (title, authors, proceedings, year), in the same order. *)
Theorem json_round_trip
        (nl : Json.Newline) (all_citations : list Json.CitationRecord) :
  Forall Json.safe_record all_citations →
  Forall Json.year_within_limit all_citations →
  ∃ file,
    Json.dump_citations nl all_citations = Some file
    ∧ Json.load_citations file = Some (Json.of_citations all_citations)
    ∧ Json.load_citations file ≫= Json.to_citations = Some all_citations.
Proof.
  intros Hsafe Hyears.
  destruct (load_dump nl (Json.of_citations all_citations)
              (distinct_keys_citations _) (ints_ok_citations _ Hyears)
              (texts_of_citations _ Hsafe))
    as (file & Hwrite & Hload).
  exists file. split; [done|]. split; [done|].
  rewrite Hload. apply to_citations_of_citations.
Qed.

Lemma json_round_trip_witness :
  Forall Json.safe_record MoreSamples.wide_records
  ∧ Forall Json.year_within_limit MoreSamples.wide_records
  ∧ ∃ file,
      Json.dump_citations Json.CRLF MoreSamples.wide_records = Some file
      ∧ Json.load_citations file
        = Some (Json.of_citations MoreSamples.wide_records)
      ∧ Json.load_citations file ≫= Json.to_citations
        = Some MoreSamples.wide_records.
Proof.
  assert (Hsafe : Forall Json.safe_record MoreSamples.wide_records).
  { repeat constructor. }
  assert (Hyears : Forall Json.year_within_limit MoreSamples.wide_records).
  { repeat constructor; vm_compute; lia. }
  split; [exact Hsafe|]. split; [exact Hyears|].
  exact (json_round_trip Json.CRLF MoreSamples.wide_records Hsafe Hyears).
Defined.

(** The bytes of a record on a platform that ends lines with a carriage
    return and a line feed: the dash, the ideograph and the emoji of the
    title take three, three and four bytes; the line feed and the quote
    inside the title are escaped. *)
Example wide_title_file :
  let q := Json.dquote in
  let key k := q :: Json.code_points k ++ q :: Json.code_points ": " in
  let line n := [13; 10]%N ++ replicate n 32%N in
  Json.dump_citations Json.CRLF
    [Json.mkRecord (Some [8211; 20013; 128512; 10; 34]%N) [] None None]
  = Some (Json.code_points "[" ++ line 2%nat ++ Json.code_points "{"
          ++ line 4%nat ++ key "title"
          ++ q :: [226; 128; 147; 228; 184; 173; 240; 159; 152; 128]%N
          ++ Json.code_points "\n\" ++ q :: q :: Json.code_points ","
          ++ line 4%nat ++ key "authors" ++ Json.code_points "[],"
          ++ line 4%nat ++ key "proceedings" ++ Json.code_points "null,"
          ++ line 4%nat ++ key "year" ++ Json.code_points "null"
          ++ line 2%nat ++ Json.code_points "}"
          ++ line 0%nat ++ Json.code_points "]").
Proof. vm_compute. reflexivity. Qed.

(** A text with a lone surrogate is not UTF-8-safe: [f.write] raises. *)
Example lone_surrogate_is_not_written :
  Json.dump_citations Json.LF [MoreSamples.lone_surrogate] = None
  ∧ ¬ Json.safe_record MoreSamples.lone_surrogate.
Proof.
  split; [vm_compute; reflexivity|].
  intros Hsafe. inversion Hsafe as [|? ? Ht _]; subst.
  inversion Ht as [|? ? Hc _]; subst. vm_compute in Hc. discriminate.
Qed.

(** ** Further properties of the extractor *)

(** *** Batches of documents *)

Lemma fold_left_app_concat {A B} (g : A → list B) (l : list A) : ∀ acc,
  fold_left (λ all x, all ++ g x) l acc = acc ++ concat (map g l).
Proof.
  induction l as [|x l IH]; intros acc; simpl.
  - by rewrite app_nil_r.
  - by rewrite IH, app_assoc.
Qed.

Lemma parse_all_concat (files : list (exn + Element)) :
  parse_all_xml_files files = concat (map parse_citations_from_xml files).
Proof. unfold parse_all_xml_files. by rewrite fold_left_app_concat. Qed.

Lemma parse_result_filter (root : Element) :
  parse_citations_from_xml (inr root)
  = filter Spec.emitted (citation_of <$> findall_desc (tei "biblStruct") root).
Proof.
  unfold parse_citations_from_xml, parse_citations_with.
  rewrite for_each_returns.
  - simpl. by rewrite omap_returned_inr.
  - apply Forall_forall. intros b _. by eexists.
Qed.

(** X1: a document that cannot be parsed adds nothing to the batch and
    leaves the records of the documents around it as they are, in their
    order. *)
Theorem unreadable_document_is_skipped
  (before after : list (exn + Element)) (e : exn) :
  parse_all_xml_files (before ++ inl e :: after)
  = parse_all_xml_files before ++ parse_all_xml_files after.
Proof.
  rewrite !parse_all_concat, map_app, concat_app. simpl. done.
Qed.

(** X2: every record of a batch has a non-empty title or at least one
    author, whatever the documents are. *)
Theorem batch_records_are_emitted (files : list (exn + Element)) :
  Forall Spec.emitted (parse_all_xml_files files).
Proof.
  rewrite parse_all_concat. apply Forall_concat, Forall_map, Forall_forall.
  intros [e|root] _.
  - apply Forall_nil_2.
  - rewrite parse_result_filter. apply Forall_forall.
    intros c Hc. by apply list_elem_of_filter in Hc as [].
Qed.

(** X3: a document gives at most one record per reference, also when the
    loop is cut short by an exception. *)
Lemma for_each_length body bs : ∀ acc,
  (length (for_each body bs acc).1 ≤ length acc + length bs)%nat.
Proof.
  induction bs as [|b bs IH]; intros acc; simpl; [lia|].
  destruct (body b) as [e|c]; simpl; [lia|].
  specialize (IH (if worth_keeping c then acc ++ [c] else acc)).
  destruct (worth_keeping c); rewrite ?length_app in IH; simpl in IH; lia.
Qed.

Theorem at_most_one_record_per_reference
  (body : Element → exn + Citation) (root : Element) :
  (length (parse_citations_with body (inr root))
   ≤ length (findall_desc (tei "biblStruct") root))%nat.
Proof.
  unfold parse_citations_with.
  pose proof (for_each_length body (findall_desc (tei "biblStruct") root) []).
  simpl in *. lia.
Qed.

(** X4: the root element is never taken for a reference: a document with
    no [biblStruct] below its root gives no record, also when the root is
    a [biblStruct] with a title and authors of its own. *)
Theorem root_is_no_reference (root : Element) :
  Forall (λ d, tag d ≠ tei "biblStruct") (descendants root) →
  parse_citations_from_xml (inr root) = [].
Proof.
  intros Hnone. rewrite parse_result_filter. unfold findall_desc.
  replace (List.filter (has_tag (tei "biblStruct")) (descendants root))
    with (@nil Element); [done|].
  induction Hnone as [|d ds Hd _ IH]; simpl; [done|].
  unfold has_tag at 1. by apply String.eqb_neq in Hd as ->.
Qed.

Lemma root_is_no_reference_witness :
  worth_keeping (citation_of MoreSamples.untitled) = true
  ∧ parse_citations_from_xml (inr MoreSamples.untitled) = [].
Proof.
  split; [vm_compute; reflexivity|].
  apply (root_is_no_reference MoreSamples.untitled).
  repeat constructor; vm_compute; discriminate.
Defined.

(** *** Single references *)

(** X5: a reference with neither an analytic nor a monogr section gives no
    record, whatever else it holds: its title, authors and venue stay
    empty. *)
Theorem reference_without_sections_is_dropped (b : Element) :
  find_desc (tei "analytic") b = None →
  find_desc (tei "monogr") b = None →
  title (citation_of b) = None
  ∧ authors (citation_of b) = []
  ∧ proceedings (citation_of b) = None
  ∧ worth_keeping (citation_of b) = false.
Proof.
  intros Ha Hm.
  assert (Ht : title (citation_of b) = None).
  { rewrite title_of_citation. unfold Spec.title_with_retry, Spec.analytic_title,
      Spec.monogr_title, Spec.analytic_main, Spec.analytic_article,
      Spec.monogr_main, Spec.monogr_level. by rewrite Ha, Hm. }
  assert (Hau : authors (citation_of b) = []).
  { rewrite authors_of_citation. by rewrite Ha. }
  assert (Hp : proceedings (citation_of b) = None).
  { rewrite proceedings_of_citation. unfold Spec.venue_chain. by rewrite Hm. }
  repeat split; try done.
  unfold worth_keeping. by rewrite Ht, Hau.
Qed.

Lemma reference_without_sections_is_dropped_witness :
  year (citation_of MoreSamples.bare) = Some 1999
  ∧ title (citation_of MoreSamples.bare) = None
  ∧ authors (citation_of MoreSamples.bare) = []
  ∧ proceedings (citation_of MoreSamples.bare) = None
  ∧ worth_keeping (citation_of MoreSamples.bare) = false.
Proof.
  split; [vm_compute; reflexivity|].
  apply (reference_without_sections_is_dropped MoreSamples.bare);
    vm_compute; reflexivity.
Defined.

(** *** Text fields *)

Lemma lstrip_with_head sp s :
  Py.lstrip_with sp s = ""
  ∨ ∃ c t, Py.lstrip_with sp s = String c t ∧ sp c = false.
Proof.
  induction s as [|c s IH]; simpl; [by left|].
  destruct (sp c) eqn:Hc; [done|]. right. by exists c, s.
Qed.

Lemma rstrip_with_idem sp s :
  Py.rstrip_with sp (Py.rstrip_with sp s) = Py.rstrip_with sp s.
Proof.
  induction s as [|c s IH]; simpl; [done|].
  destruct (sp c && negb (Py.truthy (Py.rstrip_with sp s))) eqn:Hc; [done|].
  simpl. by rewrite IH, Hc.
Qed.

Lemma lstrip_with_rstrip sp c t :
  sp c = false →
  Py.lstrip_with sp (Py.rstrip_with sp (String c t))
  = Py.rstrip_with sp (String c t).
Proof. intros Hc. simpl. rewrite Hc. simpl. by rewrite Hc. Qed.

(** Trimming a trimmed text changes nothing. *)
Lemma strip_with_idem sp s :
  Py.strip_with sp (Py.strip_with sp s) = Py.strip_with sp s.
Proof.
  unfold Py.strip_with.
  destruct (lstrip_with_head sp s) as [->|(c & t & -> & Hc)]; [done|].
  by rewrite lstrip_with_rstrip, rstrip_with_idem.
Qed.

Lemma extract_text_trimmed e t :
  extract_text e = Some t → Py.strip t = t.
Proof.
  unfold extract_text. destruct e as [e|]; [|done].
  destruct (text e) as [s|]; [|done].
  destruct (Py.truthy s); [|done].
  intros [= <-]. apply strip_with_idem.
Qed.

Lemma full_text_trimmed e : Py.strip (Spec.full_text e) = Spec.full_text e.
Proof. apply strip_with_idem. Qed.

Lemma fmap_full_text_trimmed (o : option Element) t :
  Spec.full_text <$> o = Some t → Py.strip t = t.
Proof. destruct o; simpl; [|done]. intros [= <-]. apply full_text_trimmed. Qed.

(** X6: the title and the venue of a record, when present, have no white
    space at either end: trimming them again changes nothing. *)
Theorem title_and_venue_are_trimmed (b : Element) :
  (∀ t, title (citation_of b) = Some t → Py.strip t = t)
  ∧ (∀ v, proceedings (citation_of b) = Some v → Py.strip v = v).
Proof.
  split.
  - intros t. rewrite title_of_citation.
    unfold Spec.title_with_retry, Spec.analytic_title, Spec.monogr_title.
    destruct (Spec.full_text <$> Spec.first_success
                [Spec.analytic_main b; Spec.analytic_article b]) as [ta|] eqn:Ha.
    + apply fmap_full_text_trimmed in Ha.
      destruct (decide (ta = "")) as [->|_]; [|by intros [= <-]].
      destruct (Spec.full_text <$> Spec.first_success
                  [Spec.monogr_main b; Spec.monogr_level b]) as [tm|] eqn:Hm;
        simpl; intros [= <-]; [|done].
      by apply fmap_full_text_trimmed in Hm.
    + apply fmap_full_text_trimmed.
  - intros v. rewrite proceedings_of_citation. unfold Spec.venue_chain.
    destruct (find_desc (tei "monogr") b) as [monogr|]; simpl; [|done].
    unfold Spec.venue_meeting, Spec.venue_journal, Spec.venue_monograph.
    destruct (extract_text (find_child (tei "meeting") monogr)) as [m|] eqn:Hm;
      simpl.
    + apply extract_text_trimmed in Hm.
      destruct (decide (m = "")) as [->|_]; simpl; [|by intros [= <-]].
      destruct (find_desc_attr (tei "title") "level" "j" monogr) as [j|]; simpl;
        [intros [= <-]; apply full_text_trimmed|].
      destruct (find_desc_attr (tei "title") "level" "m" monogr) as [e|]; simpl;
        [|done].
      repeat case_decide; try done. intros [= <-]. apply full_text_trimmed.
    + destruct (find_desc_attr (tei "title") "level" "j" monogr) as [j|]; simpl;
        [intros [= <-]; apply full_text_trimmed|].
      destruct (find_desc_attr (tei "title") "level" "m" monogr) as [e|]; simpl;
        [|done].
      repeat case_decide; try done. intros [= <-]. apply full_text_trimmed.
Qed.

Lemma title_and_venue_are_trimmed_witness :
  Py.strip "Attention Is All You Need" = "Attention Is All You Need"
  ∧ Py.strip "NeurIPS" = "NeurIPS".
Proof.
  destruct (title_and_venue_are_trimmed Samples.attention) as [Ht Hv]. split.
  - apply Ht. vm_compute. reflexivity.
  - apply Hv. vm_compute. reflexivity.
Defined.

(** X7: every author of a record is a non-empty text, and a record has at
    most as many authors as its analytic section has [author] elements. *)
Lemma display_name_nonempty given family name :
  (∀ f, family = Some f → f ≠ "") →
  Spec.display_name given family = Some name → name ≠ "".
Proof.
  intros Hf. unfold Spec.display_name.
  destruct given as [|g gs], family as [f|]; try done; intros [= <-].
  - by apply Hf.
  - intros Hempty. apply (f_equal String.length) in Hempty.
    rewrite !length_append in Hempty. simpl in Hempty. lia.
Qed.

Lemma author_entry_nonempty author name :
  Spec.author_entry author = Some name → name ≠ "".
Proof.
  unfold Spec.author_entry.
  destruct (find_desc (tei "persName") author) as [p|]; simpl; [|done].
  apply display_name_nonempty. unfold Spec.family_name.
  intros f. destruct (extract_text _) as [t|]; simpl; [|done].
  by case_decide; [|intros [= <-]].
Qed.

Theorem authors_are_nonempty (b : Element) :
  Forall (λ name, name ≠ "") (authors (citation_of b))
  ∧ (length (authors (citation_of b))
     ≤ from_option (λ analytic, length (findall_desc (tei "author") analytic))
                   0%nat (find_desc (tei "analytic") b))%nat.
Proof.
  rewrite authors_of_citation.
  destruct (find_desc (tei "analytic") b) as [analytic|]; simpl; [|done].
  split.
  - apply Forall_forall. intros name Hin.
    apply list_elem_of_omap in Hin as (author & _ & Hname).
    by apply author_entry_nonempty in Hname.
  - generalize (findall_desc (tei "author") analytic). intros l.
    induction l as [|a l IH]; [done|].
    change (omap Spec.author_entry (a :: l))
      with (match Spec.author_entry a with
            | Some name => name :: omap Spec.author_entry l
            | None => omap Spec.author_entry l
            end).
    destruct (Spec.author_entry a); simpl in *; lia.
Qed.

(** X8: the year of a record, when present, is an integer from -999 to
    9999; when the date element has no [when] attribute it is a year from
    1900 to 2099. *)
Theorem year_is_bounded (b : Element) (y : Z) :
  year (citation_of b) = Some y →
  -999 ≤ y ≤ 9999
  ∧ (∀ d, Spec.date_element b = Some d → get d "when" = None →
          1900 ≤ y ≤ 2099).
Proof.
  rewrite year_of_citation.
  destruct (Spec.date_element b) as [d|]; simpl; [|done].
  destruct (Spec.attribute_year d) as [ya|] eqn:Ha.
  - intros [= <-]. split; [by apply (attribute_year_range d)|].
    intros d' [= <-] Hwhen. unfold Spec.attribute_year in Ha.
    by rewrite Hwhen in Ha.
  - destruct (Spec.text_year d) as [yt|] eqn:Ht; [|done].
    intros [= <-]. apply text_year_range in Ht. split; [lia|done].
Qed.

Lemma year_is_bounded_witness :
  -999 ≤ 2021 ≤ 9999
  ∧ (∀ d, Spec.date_element Samples.book = Some d → get d "when" = None →
          1900 ≤ 2021 ≤ 2099).
Proof.
  apply (year_is_bounded Samples.book 2021). vm_compute. reflexivity.
Defined.

(** X9: on an element without children the two text extractors agree:
    [extract_all_text] gives the text [extract_text] gives, and the empty
    text where [extract_text] gives [None]. *)
Theorem extractors_agree_on_leaves (e : Element) :
  children e = [] →
  extract_all_text (Some e) = default "" (extract_text (Some e)).
Proof.
  destruct e as [t a tx tl cs]. simpl. intros ->.
  unfold extract_all_text, extract_text. simpl.
  destruct tx as [s|]; simpl; [|done].
  destruct s as [|c s]; simpl; [done|].
  by rewrite append_empty_r.
Qed.

Lemma extractors_agree_on_leaves_witness :
  extract_all_text (Some MoreSamples.plain_title) = "On Computable Numbers"
  ∧ extract_all_text (Some MoreSamples.plain_title)
    = default "" (extract_text (Some MoreSamples.plain_title)).
Proof.
  split; [vm_compute; reflexivity|].
  apply (extractors_agree_on_leaves MoreSamples.plain_title). reflexivity.
Defined.

(** ** Further properties of the output *)

(** X10: no field puts a control character (U+0000 to U+001F) into the
    text that [json.dump] writes: the text written for a string holds
    none, a line feed of the string included, each being written as an
    escape.  The control characters of the whole text are line feeds, and
    they are those of the layout: the ones of the text written when every
    field is emptied. *)
Theorem output_has_no_control_characters
        (all_citations : list Json.CitationRecord) (text : list N) :
  Json.dumps (Json.of_citations all_citations) = Some text →
  (∀ s, Json.control_characters (Json.encode_basestring s) = [])
  ∧ Forall (λ c, c = Json.line_feed) (Json.control_characters text)
  ∧ Json.control_characters
      <$> Json.dumps (Json.layout (Json.of_citations all_citations))
    = Some (Json.control_characters text).
Proof.
  unfold Json.dumps. rewrite ints_ok_layout.
  destruct (Json.ints_ok _); [|done]. intros Htext.
  assert (text = Json.encode 0 (Json.of_citations all_citations)) as ->
    by congruence.
  clear Htext.
  split; [apply control_characters_basestring|].
  split; [apply control_characters_line_feeds|].
  apply (f_equal Some). symmetry. apply control_characters_layout.
Qed.

Lemma output_has_no_control_characters_witness :
  Json.dumps (Json.of_citations MoreSamples.wide_records)
  = Some (Json.encode 0 (Json.of_citations MoreSamples.wide_records))
  ∧ (∀ s, Json.control_characters (Json.encode_basestring s) = [])
  ∧ Forall (λ c, c = Json.line_feed)
      (Json.control_characters
         (Json.encode 0 (Json.of_citations MoreSamples.wide_records)))
  ∧ Json.control_characters
      <$> Json.dumps (Json.layout (Json.of_citations MoreSamples.wide_records))
    = Some (Json.control_characters
              (Json.encode 0 (Json.of_citations MoreSamples.wide_records))).
Proof.
  assert (Hdumps : Json.dumps (Json.of_citations MoreSamples.wide_records)
                   = Some (Json.encode 0 (Json.of_citations MoreSamples.wide_records))).
  { vm_compute. reflexivity. }
  split; [exact Hdumps|].
  exact (output_has_no_control_characters MoreSamples.wide_records _ Hdumps).
Defined.

(** The line feed and the quote of the sample title are written as
    escapes: the written text has the sixteen line feeds of its layout
    and no other control character. *)
Example wide_records_control_characters :
  Json.control_characters <$> Json.dumps (Json.of_citations MoreSamples.wide_records)
  = Some (replicate 16 Json.line_feed).
Proof. vm_compute. reflexivity. Qed.

Lemma parsed_records (files : list (exn + Element)) :
  Forall (λ c, ∃ b, c = citation_of b) (parse_all_xml_files files).
Proof.
  rewrite parse_all_concat. apply Forall_concat, Forall_map, Forall_forall.
  intros [e|root] _; [apply Forall_nil_2|].
  rewrite parse_result_filter. apply Forall_forall.
  intros c [_ [b [-> _]]%list_elem_of_fmap]%list_elem_of_filter. by exists b.
Qed.

(** X11: without the input directory [main] returns and writes nothing,
    whatever the output path; with it, when the output file cannot be
    opened the exception leaves [main] and nothing is written; when it
    opens, the file holds at the end what [load_citations] reads back as
    the records of all the documents, in their order, whatever documents
    cannot be parsed. *)
Theorem main_writes_what_is_read_back
        (input : option (list (exn + Element))) (output : exn + Json.Newline) :
  match input, output with
  | None, _ => Cli.main input output = Cli.NoInput
  | Some xml_files, inl e => Cli.main input output = Cli.Raised e
  | Some xml_files, inr nl =>
      ∃ file,
        Cli.main input output = Cli.Saved file
        ∧ Json.load_citations file ≫= Json.to_citations
          = Some (Json.record_of <$> concat (map parse_citations_from_xml xml_files))
  end.
Proof.
  destruct input as [xml_files|]; [|done].
  destruct output as [e|nl]; [done|].
  unfold Cli.main. pose proof (parsed_records xml_files) as Hparsed.
  rewrite parse_all_concat in Hparsed |- *.
  destruct (load_dump nl
              (Json.of_citations
                 (Json.record_of <$> concat (map parse_citations_from_xml xml_files)))
              (distinct_keys_citations _)) as (file & Hwrite & Hload).
  { apply ints_ok_citations, Forall_fmap.
    eapply Forall_impl; [exact Hparsed|].
    intros c [b ->]. apply record_of_year. }
  { apply texts_of_citations, Forall_fmap, Forall_forall.
    intros c _. apply record_of_safe. }
  exists file. unfold Json.dump_citations. rewrite Hwrite. split; [done|].
  rewrite Hload. apply to_citations_of_citations.
Qed.

(** ** Properties of the verification example *)

Section CompareFacts.
Import Starter.

Lemma truthy_list_empty {A} (l : list A) : truthy_list l = false ↔ l = [].
Proof. destruct l; simpl; split; congruence. Qed.

Lemma none_left_out (inside l : list string) :
  filter (λ a, a ∉ inside) l = [] ↔ ∀ a, a ∈ l → a ∈ inside.
Proof.
  induction l as [|x l IH].
  - split; [intros _ a Ha; by apply elem_of_nil in Ha|done].
  - destruct (decide (x ∈ inside)) as [Hx|Hx].
    + rewrite filter_cons_False by (intros Hn; by apply Hn).
      rewrite IH. split.
      * intros Hl a Ha. apply elem_of_cons in Ha as [->|Ha]; auto.
      * intros Hl a Ha. apply Hl. by right.
    + rewrite filter_cons_True by done. split; [done|].
      intros Hl. destruct Hx. apply Hl. by left.
Qed.

(** The entries are the three checks, each at most once and in this
    order. *)
Lemma compare_authors_entries (original verified : list string) :
  ∃ missing extra order : list Discrepancy,
    discrepancies (compare_authors original verified) = missing ++ extra ++ order
    ∧ (missing = [] ↔ ∀ a, a ∈ verified → a ∈ original)
    ∧ (extra = [] ↔ ∀ a, a ∈ original → a ∈ verified)
    ∧ (order = [] ↔ ∀ o v, head original = Some o → head verified = Some v → o = v)
    ∧ is_match (compare_authors original verified)
      = bool_decide (missing ++ extra ++ order = []).
Proof.
  unfold compare_authors. cbv zeta.
  set (missing := filter (λ a, a ∉ original) verified).
  set (extra := filter (λ a, a ∉ verified) original).
  exists (if truthy_list missing
          then [mkDiscrepancy "missing_author"
                  ("Missing authors: " +:+ Py.join ", " missing)]
          else []),
         (if truthy_list extra
          then [mkDiscrepancy "extra_author"
                  ("Extra authors in original: " +:+ Py.join ", " extra)]
          else []),
         (match original, verified with
          | o :: _, v :: _ =>
              if bool_decide (o ≠ v)
              then [mkDiscrepancy "wrong_order"
                      ("First author mismatch: '" +:+ o +:+ "' vs '" +:+ v +:+ "'")]
              else []
          | _, _ => []
          end).
  split.
  { destruct original as [|o original'], verified as [|v verified'];
      destruct (truthy_list missing), (truthy_list extra);
      try destruct (bool_decide (o ≠ v)); simpl; done. }
  split.
  { rewrite <- none_left_out. fold missing.
    destruct (truthy_list missing) eqn:Hm.
    - apply truthy_list_nonempty in Hm. split; [done|]. intros ->. done.
    - apply truthy_list_empty in Hm. done. }
  split.
  { rewrite <- none_left_out. fold extra.
    destruct (truthy_list extra) eqn:He.
    - apply truthy_list_nonempty in He. split; [done|]. intros ->. done.
    - apply truthy_list_empty in He. done. }
  split.
  { destruct original as [|o original'], verified as [|v verified']; simpl;
      try (split; [intros _ ? ? ? ?; congruence|done]).
    case_bool_decide as Hov.
    - split; [done|]. intros H. destruct Hov. by apply H.
    - split; [|done]. intros _ o' v' [= <-] [= <-].
      destruct (decide (o = v)) as [|Hne]; [done|by destruct Hov]. }
  destruct original as [|o original'], verified as [|v verified'];
    destruct (truthy_list missing), (truthy_list extra);
    try destruct (bool_decide (o ≠ v)); simpl; done.
Qed.

Lemma is_match_iff (original verified : list string) :
  is_match (compare_authors original verified) = true
  ↔ (∀ a, a ∈ original ↔ a ∈ verified) ∧ head original = head verified.
Proof.
  destruct (compare_authors_entries original verified)
    as (m & e & w & _ & Hm & He & Hw & ->).
  rewrite bool_decide_eq_true. split.
  - intros Hnil. apply app_eq_nil in Hnil as [Hm' Hnil].
    apply app_eq_nil in Hnil as [He' Hw'].
    pose proof (proj1 Hm Hm') as Hvo. pose proof (proj1 He He') as Hov.
    pose proof (proj1 Hw Hw') as Hhead.
    split; [intros a; split; auto|].
    destruct original as [|o original'], verified as [|v verified']; simpl.
    + done.
    + exfalso. eapply elem_of_nil, (Hvo v). by left.
    + exfalso. eapply elem_of_nil, (Hov o). by left.
    + f_equal. by apply Hhead.
  - intros [Hsame Hhead].
    rewrite (proj2 Hm), (proj2 He), (proj2 Hw); [done|..].
    + intros o v Ho Hv. rewrite Ho, Hv in Hhead. by injection Hhead.
    + intros a. apply Hsame.
    + intros a. apply Hsame.
Qed.
End CompareFacts.

(** X12: [compare_authors] reports a match exactly when the two lists hold
    the same names and start with the same name; how often a name occurs
    and the order after the first name do not matter. *)
Theorem authors_match_iff_same_names_and_first
  (original_authors verified_authors : list string) :
  Starter.is_match (Starter.compare_authors original_authors verified_authors) = true
  ↔ (∀ a, a ∈ original_authors ↔ a ∈ verified_authors)
    ∧ head original_authors = head verified_authors.
Proof. apply is_match_iff. Qed.

(** X13: the comparison does not depend on which list is called the
    original: swapping the two lists gives the same verdict, and a list
    compared with itself matches without any discrepancy. *)
Theorem compare_authors_is_symmetric (authors1 authors2 : list string) :
  Starter.is_match (Starter.compare_authors authors1 authors2)
  = Starter.is_match (Starter.compare_authors authors2 authors1)
  ∧ Starter.compare_authors authors1 authors1 = Starter.mkComparison true [].
Proof.
  split.
  - apply eq_true_iff_eq. rewrite !is_match_iff. split.
    + intros [Hsame Hhead]. split; [intros a; by rewrite Hsame|done].
    + intros [Hsame Hhead]. split; [intros a; by rewrite Hsame|done].
  - destruct (compare_authors_entries authors1 authors1)
      as (m & e & w & Hd & Hm & He & Hw & Hb).
    assert (m = []) as -> by (by apply Hm).
    assert (e = []) as -> by (by apply He).
    assert (w = []) as -> by (apply Hw; intros o v Ho Hv; congruence).
    destruct (Starter.compare_authors authors1 authors1) as [b d].
    simpl in *. by subst.
Qed.

Section QueryFacts.
Import Starter.
Variable similarity : string → string → Z.
Variable results : string → nat → exn + list ArxivResult.

(** What the loop over the results leaves in [(best_match, best_score)]:
    either nothing beat the starting score, or the first of the results
    with the highest score. *)
Lemma fold_consider (title : string) (found : list ArxivResult) :
  ∀ (best_match : option ArxivResult) (best_score : Z),
    (fold_left (consider similarity title) found (best_match, best_score)
     = (best_match, best_score)
     ∧ ∀ r, r ∈ found → similarity (result_title r) title ≤ best_score)
    ∨ ∃ earlier r later,
        found = earlier ++ r :: later
        ∧ fold_left (consider similarity title) found (best_match, best_score)
          = (Some r, similarity (result_title r) title)
        ∧ best_score < similarity (result_title r) title
        ∧ (∀ x, x ∈ earlier →
                similarity (result_title x) title < similarity (result_title r) title)
        ∧ (∀ x, x ∈ later →
                similarity (result_title x) title ≤ similarity (result_title r) title).
Proof.
  induction found as [|r found IH]; intros best_match best_score.
  - left. split; [done|]. intros r Hr. by apply elem_of_nil in Hr.
  - cbn [fold_left].
    replace (consider similarity title (best_match, best_score) r)
      with (if best_score <? similarity (result_title r) title
            then (Some r, similarity (result_title r) title)
            else (best_match, best_score)) by done.
    destruct (Z.ltb_spec best_score (similarity (result_title r) title)) as [Hlt|Hge].
    + destruct (IH (Some r) (similarity (result_title r) title))
        as [[Hfold Hall]|(earlier & r' & later & -> & Hfold & Hlt' & Hearlier & Hlater)].
      * right. exists [], r, found.
        split; [done|]. split; [done|]. split; [done|].
        split; [|done]. intros x Hx. by apply elem_of_nil in Hx.
      * right. exists (r :: earlier), r', later.
        split; [done|]. split; [done|]. split; [lia|].
        split; [|done]. intros x Hx. apply elem_of_cons in Hx as [->|Hx]; auto.
    + destruct (IH best_match best_score)
        as [[Hfold Hall]|(earlier & r' & later & -> & Hfold & Hlt' & Hearlier & Hlater)].
      * left. split; [done|].
        intros x Hx. apply elem_of_cons in Hx as [->|Hx]; auto.
      * right. exists (r :: earlier), r', later.
        split; [done|]. split; [done|]. split; [done|].
        split; [|done]. intros x Hx. apply elem_of_cons in Hx as [->|Hx]; [lia|auto].
Qed.

Lemma query_some (title : string) (max_results : nat) (m : Match) :
  query_arxiv_by_title similarity results title max_results = Some m →
  ∃ found earlier r later,
    results title max_results = inr found
    ∧ found = earlier ++ r :: later
    ∧ m = mkMatch (result_title r) (result_authors r) (published r)
                  (similarity (result_title r) title)
    ∧ 80 ≤ similarity (result_title r) title
    ∧ (∀ x, x ∈ earlier →
            similarity (result_title x) title < similarity (result_title r) title)
    ∧ (∀ x, x ∈ later →
            similarity (result_title x) title ≤ similarity (result_title r) title).
Proof.
  unfold query_arxiv_by_title.
  destruct (results title max_results) as [e|found]; [done|]. cbv zeta.
  destruct (fold_consider title found None 0)
    as [[-> _]|(earlier & r & later & -> & -> & _ & Hearlier & Hlater)]; [done|].
  cbn [fst snd].
  destruct (Z.leb_spec 80 (similarity (result_title r) title)) as [Hge|]; [|done].
  intros [= <-]. by exists (earlier ++ r :: later), earlier, r, later.
Qed.

Lemma query_none (title : string) (max_results : nat) :
  query_arxiv_by_title similarity results title max_results = None
  ↔ (∃ e, results title max_results = inl e)
    ∨ ∃ found, results title max_results = inr found
               ∧ ∀ r, r ∈ found → similarity (result_title r) title < 80.
Proof.
  unfold query_arxiv_by_title.
  destruct (results title max_results) as [e|found].
  { split; [intros _; left; by exists e|done]. }
  cbv zeta.
  destruct (fold_consider title found None 0)
    as [[-> Hall]|(earlier & r & later & -> & -> & _ & Hearlier & Hlater)];
    cbn [fst snd].
  - split; [|done]. intros _. right. exists found. split; [done|].
    intros r Hr. specialize (Hall r Hr). lia.
  - destruct (Z.leb_spec 80 (similarity (result_title r) title)) as [Hge|Hlt].
    + split; [done|]. intros [[e He]|(found & [= <-] & Hall)]; [done|].
      specialize (Hall r). rewrite elem_of_app, elem_of_cons in Hall.
      specialize (Hall ltac:(auto)). lia.
    + split; [|done]. intros _. right. eexists. split; [done|].
      intros x Hx. apply elem_of_app in Hx as [Hx|Hx].
      * specialize (Hearlier x Hx). lia.
      * apply elem_of_cons in Hx as [->|Hx]; [done|].
        specialize (Hlater x Hx). lia.
Qed.

Lemma verify_each_outcome (citations : list Citation) :
  ∀ (done_before : list (Citation * Verification)),
    match verify_each similarity results citations done_before with
    | inr all =>
        all.*1 = done_before.*1 ++ citations
        ∧ Forall (λ c, title c ≠ None) citations
    | inl _ => Exists (λ c, title c = None) citations
    end.
Proof.
  induction citations as [|c citations IH]; intros done_before; cbn [verify_each].
  - by rewrite app_nil_r.
  - unfold verify_citation at 1.
    destruct (title c) as [t|] eqn:Ht; [|by left].
    assert (Hstep : ∀ v,
      match verify_each similarity results citations (done_before ++ [(c, v)]) with
      | inr all => all.*1 = done_before.*1 ++ c :: citations
                   ∧ Forall (λ c, title c ≠ None) (c :: citations)
      | inl _ => Exists (λ c, title c = None) (c :: citations)
      end).
    { intros v. specialize (IH (done_before ++ [(c, v)])).
      destruct (verify_each _ _ _ _) as [e|all]; [by right|].
      destruct IH as [Hall Htitles]. split.
      - rewrite Hall, fmap_app, <- app_assoc. done.
      - constructor; [congruence|done]. }
    destruct (query_arxiv_by_title similarity results t 5); apply Hstep.
Qed.
End QueryFacts.

(** X14: a match returned by [query_arxiv_by_title] is one of the results
    of the search, with a similarity of at least 80 that no other result
    exceeds; among results of equal similarity it is the first. *)
Theorem arxiv_match_is_first_best
  (similarity : string → string → Z)
  (results : string → nat → exn + list Starter.ArxivResult)
  (title : string) (max_results : nat) (m : Starter.Match) :
  Starter.query_arxiv_by_title similarity results title max_results = Some m →
  ∃ found earlier r later,
    results title max_results = inr found
    ∧ found = earlier ++ r :: later
    ∧ m = Starter.mkMatch (Starter.result_title r) (Starter.result_authors r)
            (Starter.published r) (similarity (Starter.result_title r) title)
    ∧ 80 ≤ Starter.match_score m
    ∧ (∀ x, x ∈ earlier →
            similarity (Starter.result_title x) title < Starter.match_score m)
    ∧ (∀ x, x ∈ later →
            similarity (Starter.result_title x) title ≤ Starter.match_score m).
Proof.
  intros Hq.
  destruct (query_some similarity results title max_results m Hq)
    as (found & earlier & r & later & Hr & Hf & -> & Hge & He & Hl).
  by exists found, earlier, r, later.
Qed.

Lemma arxiv_match_is_first_best_witness :
  ∃ found earlier r later,
    MoreSamples.two_papers "Attention Is All You Need" 5 = inr found
    ∧ found = earlier ++ r :: later
    ∧ Starter.mkMatch "Attention Is All You Need"
        ["Noam Shazeer"; "Ashish Vaswani"] None 100
      = Starter.mkMatch (Starter.result_title r) (Starter.result_authors r)
          (Starter.published r)
          (MoreSamples.by_length (Starter.result_title r) "Attention Is All You Need")
    ∧ 80 ≤ 100
    ∧ (∀ x, x ∈ earlier →
            MoreSamples.by_length (Starter.result_title x) "Attention Is All You Need"
            < 100)
    ∧ (∀ x, x ∈ later →
            MoreSamples.by_length (Starter.result_title x) "Attention Is All You Need"
            ≤ 100).
Proof.
  apply (arxiv_match_is_first_best MoreSamples.by_length MoreSamples.two_papers
           "Attention Is All You Need" 5
           (Starter.mkMatch "Attention Is All You Need"
              ["Noam Shazeer"; "Ashish Vaswani"] None 100)).
  vm_compute. reflexivity.
Defined.

(** X15: [query_arxiv_by_title] gives nothing exactly when the search
    raises or no result has a similarity of 80 or more. *)
Theorem arxiv_query_fails_iff
  (similarity : string → string → Z)
  (results : string → nat → exn + list Starter.ArxivResult)
  (title : string) (max_results : nat) :
  Starter.query_arxiv_by_title similarity results title max_results = None
  ↔ (∃ e, results title max_results = inl e)
    ∨ ∃ found, results title max_results = inr found
               ∧ ∀ r, r ∈ found → similarity (Starter.result_title r) title < 80.
Proof. apply query_none. Qed.

(** X16: [verify_citation] reports [verified] exactly when the citation has
    a title, the search gives a match for it, and the authors of the
    citation and of the match hold the same names and start with the same
    name. *)
Theorem verified_iff
  (similarity : string → string → Z)
  (results : string → nat → exn + list Starter.ArxivResult)
  (citation : Citation) :
  (∃ names score comparison,
      Starter.verify_citation similarity results citation
      = inr (Starter.Checked "verified" "arxiv" names score comparison))
  ↔ ∃ t m,
      title citation = Some t
      ∧ Starter.query_arxiv_by_title similarity results t 5 = Some m
      ∧ (∀ a, a ∈ authors citation ↔ a ∈ Starter.match_authors m)
      ∧ head (authors citation) = head (Starter.match_authors m).
Proof.
  unfold Starter.verify_citation.
  destruct (title citation) as [t|].
  - destruct (Starter.query_arxiv_by_title similarity results t 5) as [m|] eqn:Hq.
    + cbv zeta.
      destruct (Starter.is_match _) eqn:Hm.
      * split; [|intros _; by eexists _, _, _].
        intros _. exists t, m. apply is_match_iff in Hm as [Hsame Hhead].
        split; [done|]. split; [done|]. split; [exact Hsame|exact Hhead].
      * split.
        -- intros (names & score & comparison & [=]).
        -- intros (t' & m' & [= <-] & Hq' & Hsame).
           rewrite Hq in Hq'. injection Hq' as <-.
           apply is_match_iff in Hsame. congruence.
    + split.
      * intros (names & score & comparison & [=]).
      * intros (t' & m' & [= <-] & Hq' & _). congruence.
  - split.
    + intros (names & score & comparison & [=]).
    + intros (t' & m' & [=] & _).
Qed.

(** X17: [main] of the example verifies the first five citations only, in
    their order; it ends with an exception, and without results, exactly
    when one of them has no title. *)
Theorem example_main_outcome
  (similarity : string → string → Z)
  (results : string → nat → exn + list Starter.ArxivResult)
  (citations : list Citation) :
  match Starter.main similarity results citations with
  | inr verified =>
      verified.*1 = take 5 citations
      ∧ Forall (λ c, title c ≠ None) (take 5 citations)
  | inl _ => Exists (λ c, title c = None) (take 5 citations)
  end.
Proof.
  unfold Starter.main.
  apply (verify_each_outcome similarity results (take 5 citations) []).
Qed.
